(** * AIA Academic Illustrator: the model gateway and the workflow store

    A shallow embedding of [frontend/src/lib/api.ts] (prompt templates,
    multimodal request construction, image extraction from the model's
    text) and of [frontend/src/store/workflowStore.ts] (the persisted
    zustand store with its bounded history), with the properties the
    specification states about them. *)

From Stdlib Require Import List NArith ZArith Bool Ascii String Lia.
From Stdlib Require QArith.
From Stdlib Require DecimalString.
Import ListNotations.

Set Implicit Arguments.
Local Open Scope N_scope.

(** ** JavaScript strings

    A JavaScript string is a sequence of UTF-16 code units; [length],
    [substring], [replace], [trim] and a regular expression without the
    [u] flag all work on code units. *)

Module JS.

Definition jsstring := list N.

(** A string literal of the source (the source's literals are ASCII). *)
Definition lit (s : string) : jsstring :=
  map N_of_ascii (list_ascii_of_string s).

Definition str_eq_dec : forall a b : jsstring, {a = b} + {a <> b} :=
  list_eq_dec N.eq_dec.

(** [a === b] on strings. *)
Definition str_eqb (a b : jsstring) : bool :=
  if str_eq_dec a b then true else false.

(** Truthiness of a string: only the empty string is falsy. *)
Definition truthy (s : jsstring) : bool :=
  match s with [] => false | _ :: _ => true end.

(** [s.substring(from)] and [s.substring(0, to)] for in-range indices
    (out-of-range indices are clamped, as [skipn] and [firstn] do). *)
Definition substring_from (from : nat) (s : jsstring) : jsstring := skipn from s.
Definition substring_to (to : nat) (s : jsstring) : jsstring := firstn to s.

(** Does [s] start with [p]? *)
Fixpoint starts_with (p s : jsstring) : bool :=
  match p, s with
  | [], _ => true
  | a :: p', b :: s' => (a =? b) && starts_with p' s'
  | _ :: _, [] => false
  end.

(** [StringIndexOf(s, search, 0)]: the smallest index at which [search]
    occurs in [s]. *)
Fixpoint indexOf (search s : jsstring) : option nat :=
  if starts_with search s then Some O
  else match s with
       | [] => None
       | _ :: s' => option_map S (indexOf search s')
       end.

(** The longest prefix of [s] whose characters satisfy [p], and what is
    left after it. *)
Fixpoint takeWhile (p : N -> bool) (s : jsstring) : jsstring :=
  match s with
  | [] => []
  | c :: s' => if p c then c :: takeWhile p s' else []
  end.

Fixpoint dropWhile (p : N -> bool) (s : jsstring) : jsstring :=
  match s with
  | [] => []
  | c :: s' => if p c then dropWhile p s' else s
  end.

(** [s.includes(search)] *)
Definition includes (search s : jsstring) : bool :=
  match indexOf search s with Some _ => true | None => false end.

Definition DOLLAR : N := 36.
Definition AMPERSAND : N := 38.
Definition APOSTROPHE : N := 39.
Definition BACKTICK : N := 96.

(** [GetSubstitution] of ECMA-262 for a string pattern: there are no
    capture groups and no named groups, so [$n] and [$<] stand for
    themselves; [$$], [$&], [$`] and [$'] are expanded. *)
Fixpoint GetSubstitution (matched preceding following template : jsstring)
  : jsstring :=
  match template with
  | [] => []
  | c :: rest =>
      if c =? DOLLAR then
        match rest with
        | [] => [c]
        | d :: rest' =>
            if d =? DOLLAR then
              DOLLAR :: GetSubstitution matched preceding following rest'
            else if d =? AMPERSAND then
              matched ++ GetSubstitution matched preceding following rest'
            else if d =? BACKTICK then
              preceding ++ GetSubstitution matched preceding following rest'
            else if d =? APOSTROPHE then
              following ++ GetSubstitution matched preceding following rest'
            else
              c :: GetSubstitution matched preceding following rest
        end
      else c :: GetSubstitution matched preceding following rest
  end.

(** [s.replace(searchValue, replaceValue)] with both arguments strings:
    only the first occurrence is replaced, and the replacement text is the
    substitution template [replaceValue] expanded. *)
Definition replace (s searchValue replaceValue : jsstring) : jsstring :=
  match indexOf searchValue s with
  | None => s
  | Some pos =>
      let preceding := substring_to pos s in
      let following := substring_from (pos + List.length searchValue) s in
      preceding
        ++ GetSubstitution searchValue preceding following replaceValue
        ++ following
  end.

(** White space and line terminators of ECMA-262: what [\s] matches and
    what [trim] strips. *)
Definition isWhiteSpace (c : N) : bool :=
  (c =? 9) || (c =? 10) || (c =? 11) || (c =? 12) || (c =? 13)
  || (c =? 32) || (c =? 160) || (c =? 5760)
  || ((8192 <=? c) && (c <=? 8202))
  || (c =? 8232) || (c =? 8233) || (c =? 8239) || (c =? 8287)
  || (c =? 12288) || (c =? 65279).

Definition trimStart (s : jsstring) : jsstring := dropWhile isWhiteSpace s.

Definition trimEnd (s : jsstring) : jsstring := rev (trimStart (rev s)).

Definition trim (s : jsstring) : jsstring := trimEnd (trimStart s).

(** [array.filter((_, i) => keep(i))] *)
Definition filter_indexed {A} (keep : nat -> bool) (l : list A) : list A :=
  map snd
    (filter (fun p => keep (fst p)) (combine (seq O (List.length l)) l)).

(** Does a replacement text hold one of [$$], [$&], [$`], [$']? *)
Fixpoint has_replacement_pattern (v : jsstring) : bool :=
  match v with
  | [] => false
  | c :: rest =>
      ((c =? DOLLAR)
       && match rest with
          | [] => false
          | d :: _ =>
              (d =? DOLLAR) || (d =? AMPERSAND) || (d =? BACKTICK)
              || (d =? APOSTROPHE)
          end)
      || has_replacement_pattern rest
  end.

(** [String(n)] for a non-negative integer [n]. *)
Definition Number_toString (n : nat) : jsstring :=
  lit (DecimalString.NilEmpty.string_of_uint (Nat.to_uint n)).

End JS.

Import JS.

(** ** Regular expressions

    The two patterns of [renderImage] are sequences of single-character
    terms, greedy [+] repetitions of a character class, and the anchors
    [^] and [$]. The matcher is the backtracking matcher of ECMA-262
    restricted to these terms. *)

Module RegExp.

Inductive term :=
| One (p : N -> bool)       (* a character or a character class *)
| Plus (p : N -> bool)      (* class+ , greedy *)
| AssertStart               (* ^ *)
| AssertEnd.                (* $ *)

Definition regex := list term.

(** Match [r] at the head of [s]; [atStart] says whether the head of [s]
    is index 0 of the input. The result is the matched text. *)
Fixpoint matchHere (r : regex) : bool -> jsstring -> option jsstring :=
  match r with
  | [] => fun _ _ => Some []
  | AssertStart :: r' =>
      fun atStart s => if atStart then matchHere r' atStart s else None
  | AssertEnd :: r' =>
      fun atStart s =>
        match s with
        | [] => matchHere r' atStart s
        | _ :: _ => None
        end
  | One p :: r' =>
      fun _ s =>
        match s with
        | [] => None
        | c :: s' =>
            if p c then option_map (cons c) (matchHere r' false s') else None
        end
  | Plus p :: r' =>
      fun _ =>
        fix plus (s : jsstring) : option jsstring :=
          match s with
          | [] => None
          | c :: s' =>
              if p c then
                match plus s' with
                | Some m => Some (c :: m)
                | None => option_map (cons c) (matchHere r' false s')
                end
              else None
          end
  end.

(** [RegExpBuiltinExec] without the [g] and [y] flags: try index 0, then
    1, ... up to the length of the input. The result is the index of the
    match and [match[0]]. *)
Fixpoint execFrom (r : regex) (atStart : bool) (s : jsstring)
  : option (nat * jsstring) :=
  match matchHere r atStart s with
  | Some m => Some (O, m)
  | None =>
      match s with
      | [] => None
      | _ :: s' =>
          match execFrom r false s' with
          | Some (i, m) => Some (S i, m)
          | None => None
          end
      end
  end.

Definition exec (r : regex) (s : jsstring) : option (nat * jsstring) :=
  execFrom r true s.

(** [s.match(r)] for a non-global [r]: the array's element 0. *)
Definition match0 (r : regex) (s : jsstring) : option jsstring :=
  option_map snd (exec r s).

(** [r.test(s)]. *)
Definition test (r : regex) (s : jsstring) : bool :=
  match exec r s with Some _ => true | None => false end.

Definition chars (s : jsstring) : regex := map (fun c => One (N.eqb c)) s.

End RegExp.

(** ** The model gateway ([lib/api.ts]) *)

Module Api.

Record ModelConfig := {
  baseUrl : jsstring;
  apiKey : jsstring;
  modelName : jsstring
}.

Record GenerateSchemaResponse := { schema : jsstring }.

Record RenderImageResponse := {
  imageUrl : option jsstring;     (* string | null *)
  text : option jsstring          (* text?: string *)
}.

Definition ARCHITECT_PROMPT_TEMPLATE : jsstring := lit
"You are an expert academic diagram architect. Analyze the following paper content and generate a detailed Visual Schema that describes a publication-quality academic diagram.

The Visual Schema should include:
1. Layout structure (zones, panels, sections)
2. Visual elements (shapes, icons, connections)
3. Color scheme
4. Text labels and annotations
5. Flow/direction indicators

Paper Content:
{paper_content}

Generate a comprehensive Visual Schema in the following format:

---BEGIN PROMPT---
[DIAGRAM TITLE]
A clear, descriptive title for the diagram

[OVERALL LAYOUT]
Describe the overall structure and organization

[ZONES/SECTIONS]
Detail each zone or section with:
- Position and size
- Background color/style
- Content description

[VISUAL ELEMENTS]
List all visual elements with:
- Type (box, arrow, icon, etc.)
- Position
- Style (color, border, shadow)
- Content/label

[CONNECTIONS]
Describe connections between elements:
- From/To
- Arrow style
- Labels

[COLOR PALETTE]
List the main colors used

[KEY TEXT LABELS]
Important text annotations
---END PROMPT---".

Definition RENDERER_PROMPT_TEMPLATE : jsstring := lit
"You are an expert academic diagram renderer. Based on the following Visual Schema, generate a high-quality academic diagram suitable for CVPR/NeurIPS publications.

{visual_schema_content}

Create a clean, professional academic diagram with:
- Clear visual hierarchy
- Professional color scheme
- Crisp lines and shapes
- Readable text labels
- Publication-quality aesthetics".

Definition RENDERER_WITH_REFERENCES_TEMPLATE : jsstring := lit
"You are an expert academic diagram renderer. Based on the following Visual Schema and reference images, generate a high-quality academic diagram that matches the style of the references.

{visual_schema_content}

The reference images show the desired aesthetic style. Generate a diagram that:
- Follows the layout and structure from the Visual Schema
- Matches the visual style of the reference images
- Has publication-quality aesthetics suitable for CVPR/NeurIPS".

(** [OpenAI.Chat.ChatCompletionContentPart], the two variants used. *)
Inductive ContentPart :=
| image_url (url : jsstring)
| text_part (text : jsstring).

Record Message := { role : jsstring; content : list ContentPart }.

Record ChatRequest := {
  model : jsstring;
  messages : list Message;
  temperature : QArith_base.Q;
  max_tokens : N
}.

(** The part of a chat completion the gateway reads:
    [response.choices[0]?.message?.content]. *)
Record ResponseMessage := { message_content : option jsstring }.
Record Choice := { message : option ResponseMessage }.
Record ChatCompletion := { choices : list Choice }.

Definition first_content (response : ChatCompletion) : option jsstring :=
  match choices response with
  | [] => None
  | c :: _ =>
      match message c with
      | None => None
      | Some m => message_content m
      end
  end.

(** [x || ''] for [x] a string, null or undefined. *)
Definition or_empty (x : option jsstring) : jsstring :=
  match x with
  | Some s => if truthy s then s else []
  | None => []
  end.

(** [/data:image\/[^;]+;base64,[A-Za-z0-9+/=]+/] *)
Definition isBase64Char (c : N) : bool :=
  ((65 <=? c) && (c <=? 90)) || ((97 <=? c) && (c <=? 122))
  || ((48 <=? c) && (c <=? 57)) || (c =? 43) || (c =? 47) || (c =? 61).

Definition notSemicolon (c : N) : bool := negb (c =? 59).

Definition base64Pattern : RegExp.regex :=
  RegExp.chars (lit "data:image/") ++ [RegExp.Plus notSemicolon]
    ++ RegExp.chars (lit ";base64,") ++ [RegExp.Plus isBase64Char].

(** [/^[A-Za-z0-9+/=\s]+$/] *)
Definition isBase64OrSpace (c : N) : bool := isBase64Char c || isWhiteSpace c.

Definition rawBase64Pattern : RegExp.regex :=
  [RegExp.AssertStart; RegExp.Plus isBase64OrSpace; RegExp.AssertEnd].

(** The prompt of [generateSchema]. *)
Definition generateSchema_prompt (paperContent : jsstring) : jsstring :=
  replace ARCHITECT_PROMPT_TEMPLATE (lit "{paper_content}") paperContent.

(** [images && images.length > 0] *)
Definition provided (images : option (list jsstring)) : bool :=
  match images with
  | Some l => Nat.ltb 0 (List.length l)
  | None => false
  end.

(** The prompt of [renderImage]: the template is chosen by whether
    reference images are provided. *)
Definition renderImage_prompt (visualSchema : jsstring)
    (referenceImages : option (list jsstring)) : jsstring :=
  if provided referenceImages then
    replace RENDERER_WITH_REFERENCES_TEMPLATE (lit "{visual_schema_content}")
      visualSchema
  else
    replace RENDERER_PROMPT_TEMPLATE (lit "{visual_schema_content}")
      visualSchema.

(** The request [generateSchema] sends. *)
Definition generateSchema_request (paperContent : jsstring)
    (config : ModelConfig) (inputImages : option (list jsstring))
  : ChatRequest :=
  let prompt := generateSchema_prompt paperContent in
  let content :=
    match inputImages with
    | Some imgs =>
        if Nat.ltb 0 (List.length imgs)
        then map image_url imgs ++ [text_part prompt]
        else [text_part prompt]
    | None => [text_part prompt]
    end in
  {| model := modelName config;
     messages := [ {| role := lit "user"; content := content |} ];
     temperature := QArith_base.Qmake 7 10;
     max_tokens := 4096 |}.

(** The request [renderImage] sends. *)
Definition renderImage_request (visualSchema : jsstring)
    (config : ModelConfig) (referenceImages : option (list jsstring))
  : ChatRequest :=
  let prompt := renderImage_prompt visualSchema referenceImages in
  let content :=
    match referenceImages with
    | Some imgs =>
        if Nat.ltb 0 (List.length imgs)
        then map image_url imgs ++ [text_part prompt]
        else [text_part prompt]
    | None => [text_part prompt]
    end in
  {| model := modelName config;
     messages := [ {| role := lit "user"; content := content |} ];
     temperature := QArith_base.Qmake 7 10;
     max_tokens := 4096 |}.

(** The image-detection cascade of [renderImage], applied to the text
    extracted from the response. *)
Definition extractImage (resultContent : jsstring) : RenderImageResponse :=
  let noImage := {| imageUrl := None; text := Some resultContent |} in
  if truthy resultContent then
    match RegExp.match0 base64Pattern resultContent with
    | Some m => {| imageUrl := Some m; text := None |}
    | None =>
        if Nat.ltb 1000 (List.length resultContent)
           && RegExp.test rawBase64Pattern resultContent
        then {| imageUrl := Some (lit "data:image/png;base64,"
                                    ++ trim resultContent);
                text := None |}
        else noImage
    end
  else noImage.

(** The content parts of the request's messages (there is one message). *)
Definition user_content (r : ChatRequest) : list ContentPart :=
  flat_map content (messages r).

(** A data-URL image literal: the scheme [data:image/], a media subtype
    (non-empty, without [;]), [;base64,] and a non-empty base64 payload. *)
Definition is_data_url (m : jsstring) : Prop :=
  exists subtype payload,
    m = lit "data:image/" ++ subtype ++ lit ";base64," ++ payload
    /\ subtype <> [] /\ Forall (fun c => c <> 59) subtype
    /\ payload <> [] /\ Forall (fun c => isBase64Char c = true) payload.

Definition contains_data_url (s : jsstring) : Prop :=
  exists pre m post, s = pre ++ m ++ post /\ is_data_url m.

(** The sentence of each renderer template that the other one lacks. *)
Definition REFERENCES_PHRASE : jsstring :=
  lit "The reference images show the desired aesthetic style.".

Definition PLAIN_PHRASE : jsstring :=
  lit "Create a clean, professional academic diagram with:".

Section Gateway.

(** The remote chat-completion capability: [client.chat.completions.create]
    of a client built from the config's [apiKey] and [baseUrl]. It either
    fails with an error or returns a completion. *)
Variable RemoteError : Type.
Variable create : jsstring -> jsstring -> ChatRequest
                  -> RemoteError + ChatCompletion.

Definition generateSchema (paperContent : jsstring) (config : ModelConfig)
    (inputImages : option (list jsstring))
  : RemoteError + GenerateSchemaResponse :=
  match create (apiKey config) (baseUrl config)
          (generateSchema_request paperContent config inputImages) with
  | inl e => inl e
  | inr response => inr {| schema := or_empty (first_content response) |}
  end.

Definition renderImage (visualSchema : jsstring) (config : ModelConfig)
    (referenceImages : option (list jsstring))
  : RemoteError + RenderImageResponse :=
  match create (apiKey config) (baseUrl config)
          (renderImage_request visualSchema config referenceImages) with
  | inl e => inl e
  | inr response => inr (extractImage (or_empty (first_content response)))
  end.

End Gateway.

End Api.

(** ** The workflow store ([store/workflowStore.ts]) *)

Module Store.

Record HistoryItem := {
  id : jsstring;
  timestamp : Z;
  schema : jsstring;
  imageUrl : option jsstring;       (* string | null *)
  thumbnail : option jsstring       (* thumbnail?: string *)
}.

(** [Omit<HistoryItem, 'id' | 'timestamp' | 'thumbnail'>], the argument of
    [addToHistory]. *)
Record HistoryInput := {
  input_schema : jsstring;
  input_imageUrl : option jsstring
}.

Inductive Language := en | zh.
Inductive Step := Step1 | Step2 | Step3.

(** The data fields of [WorkflowState]. *)
Record WorkflowState := {
  logicConfig : Api.ModelConfig;
  visionConfig : Api.ModelConfig;
  language : Language;
  currentStep : Step;
  paperContent : jsstring;
  generatedSchema : jsstring;
  generatedImage : option jsstring;
  referenceImages : list jsstring;
  history : list HistoryItem;
  storageWarning : bool;
  _hasHydrated : bool
}.

(** An object literal handed to [set] is a list of field assignments. *)
Inductive Entry :=
| f_logicConfig (v : Api.ModelConfig)
| f_visionConfig (v : Api.ModelConfig)
| f_language (v : Language)
| f_currentStep (v : Step)
| f_paperContent (v : jsstring)
| f_generatedSchema (v : jsstring)
| f_generatedImage (v : option jsstring)
| f_referenceImages (v : list jsstring)
| f_history (v : list HistoryItem)
| f_storageWarning (v : bool)
| f_hasHydrated (v : bool).

Definition Partial := list Entry.

Definition assign_entry (st : WorkflowState) (e : Entry) : WorkflowState :=
  let '(Build_WorkflowState lc vc la cs pc gs gi ri hi sw hh) := st in
  match e with
  | f_logicConfig v => Build_WorkflowState v vc la cs pc gs gi ri hi sw hh
  | f_visionConfig v => Build_WorkflowState lc v la cs pc gs gi ri hi sw hh
  | f_language v => Build_WorkflowState lc vc v cs pc gs gi ri hi sw hh
  | f_currentStep v => Build_WorkflowState lc vc la v pc gs gi ri hi sw hh
  | f_paperContent v => Build_WorkflowState lc vc la cs v gs gi ri hi sw hh
  | f_generatedSchema v => Build_WorkflowState lc vc la cs pc v gi ri hi sw hh
  | f_generatedImage v => Build_WorkflowState lc vc la cs pc gs v ri hi sw hh
  | f_referenceImages v => Build_WorkflowState lc vc la cs pc gs gi v hi sw hh
  | f_history v => Build_WorkflowState lc vc la cs pc gs gi ri v sw hh
  | f_storageWarning v => Build_WorkflowState lc vc la cs pc gs gi ri hi v hh
  | f_hasHydrated v => Build_WorkflowState lc vc la cs pc gs gi ri hi sw v
  end.

(** [Object.assign({}, state, partial)] *)
Definition Object_assign (st : WorkflowState) (partial : Partial)
  : WorkflowState :=
  fold_left assign_entry partial st.

Definition defaultLogicConfig : Api.ModelConfig :=
  {| Api.baseUrl := lit "https://api.deepseek.com";
     Api.apiKey := lit "";
     Api.modelName := lit "deepseek-chat" |}.

Definition defaultVisionConfig : Api.ModelConfig :=
  {| Api.baseUrl := lit "https://generativelanguage.googleapis.com/v1beta";
     Api.apiKey := lit "";
     Api.modelName := lit "gemini-3-pro-image-preview" |}.

Definition MAX_HISTORY_ITEMS : nat := 5.

Definition createThumbnail (imageUrl : option jsstring) : option jsstring :=
  match imageUrl with
  | None => None
  | Some u =>
      if truthy u then Some (substring_to 100 u ++ lit "...") else None
  end.

(** The [newItem] of [addToHistory]; [uuid] and [now] are what
    [crypto.randomUUID()] and [Date.now()] return in that call. *)
Definition newItem (item : HistoryInput) (uuid : jsstring) (now : Z)
  : HistoryItem :=
  {| schema := input_schema item;
     id := uuid;
     timestamp := now;
     thumbnail := createThumbnail (input_imageUrl item);
     imageUrl := None |}.

Definition initialState : WorkflowState :=
  {| logicConfig := defaultLogicConfig;
     visionConfig := defaultVisionConfig;
     language := zh;
     currentStep := Step1;
     paperContent := lit "";
     generatedSchema := lit "";
     generatedImage := None;
     referenceImages := [];
     history := [];
     storageWarning := false;
     _hasHydrated := false |}.

(** What [partialize] keeps for durable storage. *)
Record PersistedState := {
  p_logicConfig : Api.ModelConfig;
  p_visionConfig : Api.ModelConfig;
  p_language : Language;
  p_paperContent : jsstring;
  p_generatedSchema : jsstring;
  p_history : list HistoryItem
}.

Definition partialize (state : WorkflowState) : PersistedState :=
  {| p_logicConfig := logicConfig state;
     p_visionConfig := visionConfig state;
     p_language := language state;
     p_paperContent := paperContent state;
     p_generatedSchema := generatedSchema state;
     p_history :=
       map (fun h => {| id := id h;
                        timestamp := timestamp h;
                        schema := schema h;
                        thumbnail := thumbnail h;
                        imageUrl := None |})
           (history state) |}.

(** The value the persist middleware hands to the storage. *)
Record StorageValue := { sv_state : PersistedState; sv_version : N }.

(** A thrown value, as far as [safeStorage.setItem] inspects it. *)
Record Exn := { instanceof_Error : bool; name : jsstring }.

Definition QuotaExceededError : Exn :=
  {| instanceof_Error := true; name := lit "QuotaExceededError" |}.

(** [e instanceof Error && e.name === 'QuotaExceededError'] *)
Definition isQuota (e : Exn) : bool :=
  instanceof_Error e && str_eqb (name e) (lit "QuotaExceededError").

Definition storage_name : jsstring := lit "academic-illustrator-storage".

Inductive Completion (A : Type) :=
| Normal (a : A)
| Throw (e : Exn).
Arguments Normal {A} a.
Arguments Throw {A} e.

Section Persisted.

(** The persistence substrate, [window.localStorage]: a write either
    yields the new contents or throws and leaves the contents as they
    were. [JSON.stringify] is the serialisation [createJSONStorage]
    applies. *)
Variable Storage : Type.
Variable localStorage_setItem : jsstring -> jsstring -> Storage -> Exn + Storage.
Variable JSON_stringify : StorageValue -> jsstring.

(** The store's state in memory and the storage contents. *)
Record World := { mem : WorkflowState; disk : Storage }.

(** Computations that read and write the world and may throw. *)
Definition M (A : Type) : Type := World -> Completion A * World.

Definition ret {A} (a : A) : M A := fun w => (Normal a, w).

Definition throw {A} (e : Exn) : M A := fun w => (Throw e, w).

Definition bind {A B} (m : M A) (k : A -> M B) : M B :=
  fun w =>
    match m w with
    | (Normal a, w') => k a w'
    | (Throw e, w') => (Throw e, w')
    end.

(** [try { body } catch (e) { handler }] *)
Definition try_catch {A} (body : M A) (handler : Exn -> M A) : M A :=
  fun w =>
    match body w with
    | (Normal a, w') => (Normal a, w')
    | (Throw e, w') => handler e w'
    end.

Notation "x <- m ;; k" := (bind m (fun x => k))
  (at level 61, m at next level, right associativity).
Notation "m ;; k" := (bind m (fun _ => k))
  (at level 61, right associativity).

Definition localStorage_setItem_call (key value : jsstring) : M unit :=
  fun w =>
    match localStorage_setItem key value (disk w) with
    | inr d => (Normal tt, {| mem := mem w; disk := d |})
    | inl e => (Throw e, w)
    end.

(** [safeStorage.setItem]: a quota error is thrown on, any other error is
    swallowed. *)
Definition safeStorage_setItem (key value : jsstring) : M unit :=
  try_catch (localStorage_setItem_call key value)
    (fun e => if isQuota e then throw e else ret tt).

(** [get()] *)
Definition get : M WorkflowState := fun w => (Normal (mem w), w).

(** The store's own [setState]: merge the partial state into the state in
    memory. *)
Definition setState (partial : WorkflowState -> Partial) : M unit :=
  fun w =>
    (Normal tt,
     {| mem := Object_assign (mem w) (partial (mem w)); disk := disk w |}).

(** Modelled from the spec: the [set] that zustand's [persist] middleware
    passes to the store (the middleware is a dependency; its source is not
    in this repository). As the library defines it, and as the
    specification describes it (a mutation updates the state in memory and
    then attempts to persist; the quota signal is the one failure that
    comes back), it first calls the store's own [setState] and then writes
    [partialize] of the new state, serialised, under the storage key; a
    throw of that write comes out of [set]. *)
Definition persist_setItem : M unit :=
  state <- get ;;
  safeStorage_setItem storage_name
    (JSON_stringify {| sv_state := partialize state; sv_version := 0 |}).

Definition set_with (partial : WorkflowState -> Partial) : M unit :=
  setState partial ;; persist_setItem.

Definition set (partial : Partial) : M unit := set_with (fun _ => partial).

(** *** Actions *)

Definition setLogicConfig (config : Api.ModelConfig) : M unit :=
  set [f_logicConfig config].
Definition setVisionConfig (config : Api.ModelConfig) : M unit :=
  set [f_visionConfig config].
Definition setLanguage (lang : Language) : M unit := set [f_language lang].
Definition setCurrentStep (step : Step) : M unit := set [f_currentStep step].
Definition setPaperContent (content : jsstring) : M unit :=
  set [f_paperContent content].
Definition setGeneratedSchema (s : jsstring) : M unit :=
  set [f_generatedSchema s].
Definition setGeneratedImage (image : option jsstring) : M unit :=
  set [f_generatedImage image].

Definition addReferenceImage (image : jsstring) : M unit :=
  set_with (fun state => [f_referenceImages (referenceImages state ++ [image])]).

(** [array.filter((_, i) => i !== index)] *)
Fixpoint remove_index {A} (index : nat) (l : list A) : list A :=
  match l, index with
  | [], _ => []
  | _ :: l', O => l'
  | x :: l', S n => x :: remove_index n l'
  end.

Definition removeReferenceImage (index : nat) : M unit :=
  set_with (fun state =>
    [f_referenceImages (remove_index index (referenceImages state))]).

Definition clearReferenceImages : M unit := set [f_referenceImages []].

Definition addToHistory (item : HistoryInput) (uuid : jsstring) (now : Z)
  : M unit :=
  state <- get ;;
  let newHistory :=
    newItem item uuid now
      :: firstn (MAX_HISTORY_ITEMS - 1) (history state) in
  try_catch
    (set [f_history newHistory; f_storageWarning false])
    (fun e => set [f_storageWarning true]).

Definition loadFromHistory (i : jsstring) : M unit :=
  state <- get ;;
  match find (fun h => str_eqb (id h) i) (history state) with
  | Some item => set [f_generatedSchema (schema item); f_generatedImage None]
  | None => ret tt
  end.

Definition deleteFromHistory (i : jsstring) : M unit :=
  set_with (fun state =>
    [f_history (filter (fun h => negb (str_eqb (id h) i)) (history state));
     f_storageWarning false]).

Definition clearHistory : M unit :=
  set [f_history []; f_storageWarning false].

Definition resetProject : M unit :=
  set [f_paperContent (lit "");
       f_generatedSchema (lit "");
       f_generatedImage None;
       f_referenceImages [];
       f_currentStep Step1].

Definition setHasHydrated (state : bool) : M unit := set [f_hasHydrated state].
Definition setStorageWarning (show : bool) : M unit :=
  set [f_storageWarning show].

(** The actions of the store, as a caller invokes them. *)
Inductive Action :=
| SetLogicConfig (config : Api.ModelConfig)
| SetVisionConfig (config : Api.ModelConfig)
| SetLanguage (lang : Language)
| SetCurrentStep (step : Step)
| SetPaperContent (content : jsstring)
| SetGeneratedSchema (s : jsstring)
| SetGeneratedImage (image : option jsstring)
| AddReferenceImage (image : jsstring)
| RemoveReferenceImage (index : nat)
| ClearReferenceImages
| AddToHistory (item : HistoryInput) (uuid : jsstring) (now : Z)
| LoadFromHistory (i : jsstring)
| DeleteFromHistory (i : jsstring)
| ClearHistory
| ResetProject
| SetHasHydrated (state : bool)
| SetStorageWarning (show : bool).

Definition perform (a : Action) : M unit :=
  match a with
  | SetLogicConfig config => setLogicConfig config
  | SetVisionConfig config => setVisionConfig config
  | SetLanguage lang => setLanguage lang
  | SetCurrentStep step => setCurrentStep step
  | SetPaperContent content => setPaperContent content
  | SetGeneratedSchema s => setGeneratedSchema s
  | SetGeneratedImage image => setGeneratedImage image
  | AddReferenceImage image => addReferenceImage image
  | RemoveReferenceImage index => removeReferenceImage index
  | ClearReferenceImages => clearReferenceImages
  | AddToHistory item uuid now => addToHistory item uuid now
  | LoadFromHistory i => loadFromHistory i
  | DeleteFromHistory i => deleteFromHistory i
  | ClearHistory => clearHistory
  | ResetProject => resetProject
  | SetHasHydrated state => setHasHydrated state
  | SetStorageWarning show => setStorageWarning show
  end.

(** The actions that change only fields that [partialize] leaves out. *)
Definition transient (a : Action) : bool :=
  match a with
  | SetCurrentStep _ | SetGeneratedImage _ | AddReferenceImage _
  | RemoveReferenceImage _ | ClearReferenceImages | SetHasHydrated _
  | SetStorageWarning _ => true
  | _ => false
  end.

(** The world after a computation, whether it returned or threw. *)
Definition after {A} (m : M A) (w : World) : World := snd (m w).

Definition completion {A} (m : M A) (w : World) : Completion A := fst (m w).

(** A sequence of [addToHistory] calls, each from its own event: a call
    that throws does not stop the later ones. *)
Definition addAll (calls : list (HistoryInput * jsstring * Z)) (w : World)
  : World :=
  fold_left
    (fun w c => let '(item, uuid, now) := c in after (addToHistory item uuid now) w)
    calls w.

End Persisted.

(** The item [addToHistory] stores for a call. *)
Definition stored (c : HistoryInput * jsstring * Z) : HistoryItem :=
  let '(item, uuid, now) := c in newItem item uuid now.

(** A storage with a quota on the total size of its keys and values, and
    a serialisation that keeps the text fields of the persisted state:
    an instance of the substrate on which the actions can be run. *)
Module Bounded.

Definition Storage := list (jsstring * jsstring).

Definition used (d : Storage) : nat :=
  fold_right
    (fun kv n => (List.length (fst kv) + List.length (snd kv) + n)%nat) O d.

Definition removeItem (key : jsstring) (d : Storage) : Storage :=
  filter (fun kv => negb (str_eqb (fst kv) key)) d.

Definition setItem (quota : nat) (key value : jsstring) (d : Storage)
  : Exn + Storage :=
  let d' := (key, value) :: removeItem key d in
  if Nat.leb (used d') quota then inr d' else inl QuotaExceededError.

Definition stringify (v : StorageValue) : jsstring :=
  let st := sv_state v in
  p_paperContent st ++ p_generatedSchema st
    ++ flat_map
         (fun h => id h ++ schema h
                   ++ match thumbnail h with Some t => t | None => [] end)
         (p_history st).

(** A storage whose quota is used up by another key. *)
Definition quota : nat := 64.

Definition full : Storage := [(lit "draft", repeat 120 59)].

(** A state with two history items and an image on screen, on the full
    storage, and six calls of [addToHistory]. *)
Definition sample_item (i : jsstring) : HistoryItem :=
  {| id := i;
     timestamp := 1700000000000%Z;
     schema := lit "[DIAGRAM TITLE] " ++ i;
     imageUrl := None;
     thumbnail := None |}.

Definition sample_state : WorkflowState :=
  Object_assign initialState
    [f_generatedImage (Some (lit "data:image/png;base64,AAAA"));
     f_history [sample_item (lit "a"); sample_item (lit "b")]].

Definition sample_world : World Storage :=
  {| mem := sample_state; disk := full |}.

Definition sample_call (i : jsstring) : HistoryInput * jsstring * Z :=
  ({| input_schema := lit "[DIAGRAM TITLE] " ++ i;
      input_imageUrl := Some (lit "data:image/png;base64,AAAA") |},
   i, 1700000000000%Z).

Definition sample_calls : list (HistoryInput * jsstring * Z) :=
  map sample_call [lit "1"; lit "2"; lit "3"; lit "4"; lit "5"; lit "6"].

End Bounded.

(** A storage that refuses every write for a reason other than its quota
    (a browser that denies access to the storage). *)
Module Denied.

Definition SecurityError : Exn :=
  {| instanceof_Error := true; name := lit "SecurityError" |}.

Definition setItem (key value : jsstring) (d : Bounded.Storage)
  : Exn + Bounded.Storage :=
  inl SecurityError.

End Denied.

End Store.

(** ** The architect step ([components/steps/ArchitectStep.tsx])

    The handlers of the component, on the component's own state and the
    store. A handler runs from its first statement to its last without
    another event in between; the notifications it raises are kept in
    order. *)

Module Architect.

Record UploadedFile := {
  name : jsstring;
  base64 : jsstring;
  type : jsstring;
  preview : option jsstring         (* preview?: string *)
}.

(** A [File] of the browser: its name and its MIME type; [file_key] stands
    for its bytes. *)
Record File := {
  file_name : jsstring;
  file_type : jsstring;
  file_key : N
}.

Inductive Toast :=
| toast_error (message : jsstring)
| toast_success (message : jsstring)
| toast_info (message : jsstring).

(** The state of the component. *)
Record Component := {
  isGenerating : bool;
  isProcessingFiles : bool;
  uploadedFiles : list UploadedFile;
  processedImages : list jsstring;
  toasts : list Toast               (* the notifications raised so far *)
}.

Definition setIsGenerating (b : bool) (c : Component) : Component :=
  {| isGenerating := b;
     isProcessingFiles := isProcessingFiles c;
     uploadedFiles := uploadedFiles c;
     processedImages := processedImages c;
     toasts := toasts c |}.

Definition setIsProcessingFiles (b : bool) (c : Component) : Component :=
  {| isGenerating := isGenerating c;
     isProcessingFiles := b;
     uploadedFiles := uploadedFiles c;
     processedImages := processedImages c;
     toasts := toasts c |}.

Definition setUploadedFiles (f : list UploadedFile -> list UploadedFile)
    (c : Component) : Component :=
  {| isGenerating := isGenerating c;
     isProcessingFiles := isProcessingFiles c;
     uploadedFiles := f (uploadedFiles c);
     processedImages := processedImages c;
     toasts := toasts c |}.

Definition setProcessedImages (f : list jsstring -> list jsstring)
    (c : Component) : Component :=
  {| isGenerating := isGenerating c;
     isProcessingFiles := isProcessingFiles c;
     uploadedFiles := uploadedFiles c;
     processedImages := f (processedImages c);
     toasts := toasts c |}.

Definition toast (x : Toast) (c : Component) : Component :=
  {| isGenerating := isGenerating c;
     isProcessingFiles := isProcessingFiles c;
     uploadedFiles := uploadedFiles c;
     processedImages := processedImages c;
     toasts := toasts c ++ [x] |}.

(** The literals of the handlers that are not ASCII, as code units. *)
Definition ZH_NO_INPUT : jsstring :=
  [35831; 36755; 20837; 25991; 26412; 25110; 19978; 20256; 25991; 20214].

Definition ZH_DEFAULT_CONTENT : jsstring :=
  [35831; 20998; 26512; 19978; 20256; 30340; 25991; 26723; 24182; 29983;
   25104; 35270; 35273; 26550; 26500; 12290].

Definition ZH_GENERATED : jsstring :=
  [34013; 22270; 29983; 25104; 25104; 21151; 65281].

Definition ZH_PROCESSING_PDF : jsstring :=
  [27491; 22312; 22788; 29702; 32; 80; 68; 70; 58; 32].

Definition ZH_CONVERTED_TO : jsstring :=
  [80; 68; 70; 32; 24050; 36716; 25442; 20026; 32].

Definition ZH_IMAGES : jsstring := [32; 24352; 22270; 29255].

Definition ZH_PROCESSING_FAILED : jsstring :=
  [25991; 20214; 22788; 29702; 22833; 36133].

(** [removeFile(index)]: the images are emptied only when no file is
    left. *)
Definition removeFile (index : nat) (c : Component) : Component :=
  let c1 :=
    setUploadedFiles
      (fun prev => filter_indexed (fun i => negb (Nat.eqb i index)) prev) c in
  let remainingFiles :=
    filter_indexed (fun i => negb (Nat.eqb i index)) (uploadedFiles c) in
  if Nat.eqb (List.length remainingFiles) 0
  then setProcessedImages (fun _ => []) c1
  else c1.

Definition clearAllFiles (c : Component) : Component :=
  setProcessedImages (fun _ => []) (setUploadedFiles (fun _ => []) c).

Section Handlers.

(** What the handlers take from outside: the conversion of a PDF to page
    images (pdf.js), which may fail; the reading of an image file as a
    data URL; the translations [t]; and the message of a thrown value. *)
Variable Failure : Type.
Variable convertPdfToImages : File -> Failure + list jsstring.
Variable readAsDataURL : File -> jsstring.
Variable t : Store.Language -> jsstring -> jsstring.

(** The [for] loop of [handleFileUpload]: the files in order, the new
    files and images collected so far; it stops at the first failure. *)
Fixpoint processFiles (language : Store.Language) (files : list File)
    (newFiles : list UploadedFile) (newImages : list jsstring)
    (c : Component)
  : (Failure + list UploadedFile * list jsstring) * Component :=
  match files with
  | [] => (inr (newFiles, newImages), c)
  | file :: rest =>
      if str_eqb (file_type file) (lit "application/pdf") then
        let c1 :=
          toast
            (toast_info
               (match language with
                | Store.zh => ZH_PROCESSING_PDF ++ file_name file ++ lit "..."
                | Store.en =>
                    lit "Processing PDF: " ++ file_name file ++ lit "..."
                end)) c in
        match convertPdfToImages file with
        | inl e => (inl e, c1)
        | inr pdfImages =>
            let c2 :=
              toast
                (toast_success
                   (match language with
                    | Store.zh =>
                        ZH_CONVERTED_TO
                          ++ Number_toString (List.length pdfImages)
                          ++ ZH_IMAGES
                    | Store.en =>
                        lit "PDF converted to "
                          ++ Number_toString (List.length pdfImages)
                          ++ lit " images"
                    end)) c1 in
            processFiles language rest
              (newFiles ++ [ {| name := file_name file;
                                base64 := lit "";
                                type := file_type file;
                                preview := hd_error pdfImages |} ])
              (newImages ++ pdfImages) c2
        end
      else if starts_with (lit "image/") (file_type file) then
        let imageData := readAsDataURL file in
        processFiles language rest
          (newFiles ++ [ {| name := file_name file;
                            base64 := imageData;
                            type := file_type file;
                            preview := Some imageData |} ])
          (newImages ++ [imageData]) c
      else processFiles language rest newFiles newImages c
  end.

(** [handleFileUpload(files)], with the language of the render. *)
Definition handleFileUpload (language : Store.Language)
    (files : option (list File)) (c : Component) : Component :=
  match files with
  | None => c
  | Some files =>
      let c1 := setIsProcessingFiles true c in
      let c3 :=
        match processFiles language files [] [] c1 with
        | (inr (newFiles, newImages), c2) =>
            setProcessedImages (fun prev => prev ++ newImages)
              (setUploadedFiles (fun prev => prev ++ newFiles) c2)
        | (inl _, c2) =>
            toast
              (toast_error
                 (match language with
                  | Store.zh => ZH_PROCESSING_FAILED
                  | Store.en => lit "Failed to process files"
                  end)) c2
        end in
      setIsProcessingFiles false c3
  end.

(** The two kinds of file the loop takes, and the images a file
    contributes when its conversion succeeds. *)
Definition is_pdf (file : File) : bool :=
  str_eqb (file_type file) (lit "application/pdf").

Definition is_image (file : File) : bool :=
  starts_with (lit "image/") (file_type file).

Definition images_of (file : File) : list jsstring :=
  if is_pdf file then
    match convertPdfToImages file with
    | inr pdfImages => pdfImages
    | inl _ => []
    end
  else if is_image file then [readAsDataURL file]
  else [].

(** The store behind the component and the remote capability of the
    gateway. *)
Variable Storage : Type.
Variable localStorage_setItem :
  jsstring -> jsstring -> Storage -> Store.Exn + Storage.
Variable JSON_stringify : Store.StorageValue -> jsstring.
Variable RemoteError : Type.
Variable create : jsstring -> jsstring -> Api.ChatRequest
                  -> RemoteError + Api.ChatCompletion.

(** [error instanceof Error] and [error.message] of what the gateway and
    the store throw. *)
Variable remote_instanceof_Error : RemoteError -> bool.
Variable remote_message : RemoteError -> jsstring.
Variable exn_message : Store.Exn -> jsstring.

Inductive Thrown :=
| thrown_by_gateway (e : RemoteError)
| thrown_by_store (e : Store.Exn).

Definition errorMessage (error : Thrown) : jsstring :=
  match error with
  | thrown_by_gateway e =>
      if remote_instanceof_Error e then remote_message e
      else lit "Unknown error"
  | thrown_by_store e =>
      if Store.instanceof_Error e then exn_message e
      else lit "Unknown error"
  end.

(** The content [handleGenerate] sends: the trimmed paper content, or a
    fixed request when that is empty. *)
Definition contentToSend (language : Store.Language) (paperContent : jsstring)
  : jsstring :=
  if truthy (trim paperContent) then trim paperContent
  else match language with
       | Store.zh => ZH_DEFAULT_CONTENT
       | Store.en =>
           lit "Please analyze the uploaded document(s) and generate a Visual Schema."
       end.

(** The body of the [try] of [handleGenerate]: what was thrown, if
    anything, and the component and the world it leaves. *)
Definition generate (language : Store.Language) (paperContent : jsstring)
    (logicConfig : Api.ModelConfig) (c : Component) (w : Store.World Storage)
  : option Thrown * Component * Store.World Storage :=
  match Api.generateSchema create
          (contentToSend language paperContent) logicConfig
          (if Nat.ltb 0 (List.length (processedImages c))
           then Some (processedImages c) else None) with
  | inl e => (Some (thrown_by_gateway e), c, w)
  | inr response =>
      match Store.setGeneratedSchema localStorage_setItem JSON_stringify
              (Api.schema response) w with
      | (Store.Throw e, w1) => (Some (thrown_by_store e), c, w1)
      | (Store.Normal _, w1) =>
          match Store.setCurrentStep localStorage_setItem JSON_stringify
                  Store.Step2 w1 with
          | (Store.Throw e, w2) => (Some (thrown_by_store e), c, w2)
          | (Store.Normal _, w2) =>
              (None,
               toast
                 (toast_success
                    (match language with
                     | Store.zh => ZH_GENERATED
                     | Store.en => lit "Blueprint generated successfully!"
                     end)) c,
               w2)
          end
      end
  end.

(** [handleGenerate()]; the language, the paper content and the logic
    config are those of the store at the time of the call. *)
Definition handleGenerate (c : Component) (w : Store.World Storage)
  : Component * Store.World Storage :=
  let language := Store.language (Store.mem w) in
  let paperContent := Store.paperContent (Store.mem w) in
  let logicConfig := Store.logicConfig (Store.mem w) in
  if negb (truthy (Api.apiKey logicConfig)) then
    (toast (toast_error (t language (lit "missingApiKey"))) c, w)
  else if negb (truthy (trim paperContent))
          && Nat.eqb (List.length (processedImages c)) 0 then
    (toast
       (toast_error
          (match language with
           | Store.zh => ZH_NO_INPUT
           | Store.en => lit "Please enter text or upload files"
           end)) c,
     w)
  else
    let c1 := setIsGenerating true c in
    let '(thrown, c2, w2) := generate language paperContent logicConfig c1 w in
    let c3 :=
      match thrown with
      | Some error =>
          toast
            (toast_error
               (t language (lit "generationFailed") ++ lit ": "
                  ++ errorMessage error)) c2
      | None => c2
      end in
    (setIsGenerating false c3, w2).

(** The two checks of [handleGenerate] pass: there is an API key, and
    there is text or there are images. *)
Definition ready (c : Component) (w : Store.World Storage) : Prop :=
  truthy (Api.apiKey (Store.logicConfig (Store.mem w))) = true
  /\ (truthy (trim (Store.paperContent (Store.mem w))) = true
      \/ processedImages c <> []).

End Handlers.

(** Files, outside capabilities and a world on which the handlers can be
    run: a conversion that fails on the file with key 0 and gives two
    pages otherwise, a remote capability that answers every request with
    a given content, one that answers only requests for the model
    [deepseek-chat], and one that always fails. *)
Module Sample.

Definition convert (file : File) : unit + list jsstring :=
  if file_key file =? 0 then inl tt
  else inr [lit "data:image/png;base64,P1"; lit "data:image/png;base64,P2"].

Definition read (file : File) : jsstring := lit "data:image/png;base64,IMG".

Definition paper_pdf : File :=
  {| file_name := lit "paper.pdf";
     file_type := lit "application/pdf";
     file_key := 1 |}.

Definition broken_pdf : File :=
  {| file_name := lit "broken.pdf";
     file_type := lit "application/pdf";
     file_key := 0 |}.

Definition figure_png : File :=
  {| file_name := lit "figure.png";
     file_type := lit "image/png";
     file_key := 2 |}.

Definition notes_txt : File :=
  {| file_name := lit "notes.txt";
     file_type := lit "text/plain";
     file_key := 3 |}.

Definition idle : Component :=
  {| isGenerating := false;
     isProcessingFiles := false;
     uploadedFiles := [];
     processedImages := [];
     toasts := [] |}.

Definition t (language : Store.Language) (key : jsstring) : jsstring := key.

Definition completion_of (reply : option jsstring) : Api.ChatCompletion :=
  {| Api.choices :=
       [ {| Api.message := Some {| Api.message_content := reply |} |} ] |}.

Definition answering (reply : option jsstring)
    (apiKey baseUrl : jsstring) (r : Api.ChatRequest)
  : unit + Api.ChatCompletion :=
  inr (completion_of reply).

Definition answering_deepseek (reply : option jsstring)
    (apiKey baseUrl : jsstring) (r : Api.ChatRequest)
  : unit + Api.ChatCompletion :=
  if str_eqb (Api.model r) (lit "deepseek-chat")
  then inr (completion_of reply) else inl tt.

Definition failing (apiKey baseUrl : jsstring) (r : Api.ChatRequest)
  : unit + Api.ChatCompletion :=
  inl tt.

Definition message_of_unit (e : unit) : jsstring := lit "Connection error.".

Definition message_of_exn (e : Store.Exn) : jsstring := Store.name e.

(** The sample world of the store with an API key and a paper content,
    on the full storage. *)
Definition keyed_world : Store.World Store.Bounded.Storage :=
  {| Store.mem :=
       Store.Object_assign Store.Bounded.sample_state
         [Store.f_logicConfig
            {| Api.baseUrl := lit "https://api.deepseek.com";
               Api.apiKey := lit "sk-1";
               Api.modelName := lit "deepseek-chat" |};
          Store.f_paperContent (lit "  An abstract. ")];
     Store.disk := Store.Bounded.full |}.

End Sample.

End Architect.

(** * Properties *)

Unset Implicit Arguments.

(** ** Strings *)

Section StringFacts.

Lemma starts_with_app (p s : jsstring) : starts_with p (p ++ s) = true.
Proof.
  induction p as [|a p IH]; simpl; [reflexivity|].
  now rewrite N.eqb_refl.
Qed.

Lemma starts_with_split (p s : jsstring) :
  starts_with p s = true -> s = p ++ skipn (List.length p) s.
Proof.
  revert s; induction p as [|a p IH]; intros [|b s] H; simpl in *;
    try reflexivity; try discriminate.
  apply andb_prop in H as [Hab Hps].
  apply N.eqb_eq in Hab; subst b.
  f_equal; now apply IH.
Qed.

Lemma indexOf_split (p s : jsstring) (pos : nat) :
  indexOf p s = Some pos ->
  s = firstn pos s ++ p ++ skipn (pos + List.length p) s.
Proof.
  revert pos; induction s as [|c s IH]; intros pos; simpl.
  - destruct (starts_with p []) eqn:E; [|discriminate].
    intros [= <-]. now apply starts_with_split in E.
  - destruct (starts_with p (c :: s)) eqn:E.
    + intros [= <-]. now apply starts_with_split in E.
    + destruct (indexOf p s) as [n|]; simpl; [|discriminate].
      intros [= <-]. simpl. f_equal. now apply IH.
Qed.

Lemma indexOf_unfold (p s : jsstring) :
  indexOf p s =
    if starts_with p s then Some O
    else match s with
         | [] => None
         | _ :: s' => option_map S (indexOf p s')
         end.
Proof. now destruct s. Qed.

Lemma indexOf_app (a p b : jsstring) :
  indexOf p (a ++ p ++ b) <> None.
Proof.
  induction a as [|c a IH]; simpl.
  - rewrite indexOf_unfold, starts_with_app; discriminate.
  - destruct (starts_with p (c :: a ++ p ++ b)); [discriminate|].
    destruct (indexOf p (a ++ p ++ b)); [discriminate|contradiction].
Qed.

Lemma includes_app (a p b : jsstring) : includes p (a ++ p ++ b) = true.
Proof.
  unfold includes. pose proof (indexOf_app a p b) as H.
  destruct (indexOf p (a ++ p ++ b)); [reflexivity|contradiction].
Qed.

(** A replacement text without [$] is inserted as it is. *)
Lemma GetSubstitution_plain (m pre post v : jsstring) :
  Forall (fun c => c <> DOLLAR) v -> GetSubstitution m pre post v = v.
Proof.
  induction 1 as [|c v Hc _ IH]; simpl; [reflexivity|].
  apply N.eqb_neq in Hc. rewrite Hc. now rewrite IH.
Qed.

Lemma replace_found (s p v : jsstring) (pos : nat) :
  indexOf p s = Some pos ->
  replace s p v =
    firstn pos s
      ++ GetSubstitution p (firstn pos s) (skipn (pos + List.length p) s) v
      ++ skipn (pos + List.length p) s.
Proof. unfold replace. now intros ->. Qed.

(** [replace] touches only the first occurrence of the pattern: the text
    before it and the text after it are kept. *)
Lemma replace_plain (s p v : jsstring) (pos : nat) :
  indexOf p s = Some pos ->
  Forall (fun c => c <> DOLLAR) v ->
  s = firstn pos s ++ p ++ skipn (pos + List.length p) s
  /\ replace s p v = firstn pos s ++ v ++ skipn (pos + List.length p) s.
Proof.
  intros Hpos Hv. split; [now apply indexOf_split|].
  rewrite (replace_found s p v pos Hpos). now rewrite GetSubstitution_plain.
Qed.

Lemma takeWhile_dropWhile (p : N -> bool) (s : jsstring) :
  s = takeWhile p s ++ dropWhile p s.
Proof.
  induction s as [|c s IH]; simpl; [reflexivity|].
  destruct (p c); simpl; [now f_equal|reflexivity].
Qed.

Lemma takeWhile_Forall (p : N -> bool) (s : jsstring) :
  Forall (fun c => p c = true) (takeWhile p s).
Proof.
  induction s as [|c s IH]; simpl; [constructor|].
  destruct (p c) eqn:E; now constructor.
Qed.

Lemma takeWhile_nil_dropWhile (p : N -> bool) (s : jsstring) :
  takeWhile p s = [] -> dropWhile p s = s.
Proof. destruct s as [|c s]; simpl; [reflexivity|]. now destruct (p c). Qed.

Lemma takeWhile_dropWhile_nil (p : N -> bool) (s : jsstring) :
  takeWhile p (dropWhile p s) = [].
Proof.
  induction s as [|c s IH]; simpl; [reflexivity|].
  destruct (p c) eqn:E; [exact IH|]. simpl. now rewrite E.
Qed.

Lemma takeWhile_app (p : N -> bool) (run rest : jsstring) :
  Forall (fun c => p c = true) run ->
  takeWhile p (run ++ rest) = run ++ takeWhile p rest
  /\ dropWhile p (run ++ rest) = dropWhile p rest.
Proof.
  induction 1 as [|c run Hc _ [IH1 IH2]]; simpl; [now split|].
  rewrite Hc. split; [now f_equal|assumption].
Qed.

Lemma takeWhile_all (p : N -> bool) (s : jsstring) :
  takeWhile p s = s <-> Forall (fun c => p c = true) s.
Proof.
  split.
  - intros <-. apply takeWhile_Forall.
  - intros H. destruct (takeWhile_app p s [] H) as [E _].
    now rewrite !app_nil_r in E.
Qed.

End StringFacts.

(** ** The multimodal request builder *)

Section RequestBuilder.

Import Api.

Lemma images_then_text {A B} (f : A -> B) (l : list A) (x : B) :
  let c := map f l ++ [x] in
  List.length c = (List.length l + 1)%nat
  /\ firstn (List.length l) c = map f l
  /\ skipn (List.length l) c = [x].
Proof.
  cbv zeta. induction l as [|a l (IH1 & IH2 & IH3)]; simpl.
  - repeat split.
  - rewrite IH1, IH2, IH3. repeat split.
Qed.

Lemma generateSchema_content (paperContent : jsstring) (config : ModelConfig)
    (inputImages : option (list jsstring)) :
  user_content (generateSchema_request paperContent config inputImages) =
    match inputImages with
    | Some (i :: l) =>
        map image_url (i :: l) ++ [text_part (generateSchema_prompt paperContent)]
    | _ => [text_part (generateSchema_prompt paperContent)]
    end.
Proof.
  unfold user_content, generateSchema_request.
  generalize (generateSchema_prompt paperContent) as prompt. intros prompt.
  cbn [messages flat_map content]. rewrite app_nil_r.
  destruct inputImages as [[|i l]|]; reflexivity.
Qed.

Lemma renderImage_content (visualSchema : jsstring) (config : ModelConfig)
    (referenceImages : option (list jsstring)) :
  user_content (renderImage_request visualSchema config referenceImages) =
    match referenceImages with
    | Some (i :: l) =>
        map image_url (i :: l)
          ++ [text_part (renderImage_prompt visualSchema referenceImages)]
    | _ => [text_part (renderImage_prompt visualSchema referenceImages)]
    end.
Proof.
  unfold user_content, renderImage_request.
  generalize (renderImage_prompt visualSchema referenceImages) as prompt.
  intros prompt.
  cbn [messages flat_map content]. rewrite app_nil_r.
  destruct referenceImages as [[|i l]|]; reflexivity.
Qed.

(** C1. With K >= 1 images, the content parts that [generateSchema] and
    [renderImage] send are K+1 parts: the K images as image parts, in the
    order given, and then one text part with the whole prompt, last. With
    no images (no list, or the empty list) the only part is the text
    part. *)
Theorem C1_content_parts_images_then_text :
  forall (paperContent visualSchema : jsstring) (config : ModelConfig),
    (forall images : list jsstring,
        (1 <= List.length images)%nat ->
        let K := List.length images in
        let g := user_content
                   (generateSchema_request paperContent config (Some images)) in
        let r := user_content
                   (renderImage_request visualSchema config (Some images)) in
        List.length g = (K + 1)%nat
        /\ firstn K g = map image_url images
        /\ skipn K g = [text_part (generateSchema_prompt paperContent)]
        /\ List.length r = (K + 1)%nat
        /\ firstn K r = map image_url images
        /\ skipn K r =
             [text_part (renderImage_prompt visualSchema (Some images))])
    /\ (forall images : option (list jsstring),
        images = None \/ images = Some [] ->
        user_content (generateSchema_request paperContent config images)
          = [text_part (generateSchema_prompt paperContent)]
        /\ user_content (renderImage_request visualSchema config images)
          = [text_part (renderImage_prompt visualSchema images)]).
Proof.
  intros paperContent visualSchema config. split.
  - intros images HK. cbv zeta.
    rewrite generateSchema_content, renderImage_content.
    destruct images as [|i l]; [simpl in HK; lia|].
    pose proof (images_then_text image_url (i :: l)
                  (text_part (generateSchema_prompt paperContent))) as G.
    pose proof (images_then_text image_url (i :: l)
                  (text_part (renderImage_prompt visualSchema (Some (i :: l)))))
      as R.
    cbv zeta in G, R. tauto.
  - intros images [-> | ->];
      now rewrite generateSchema_content, renderImage_content.
Qed.

(** C1 on two images. *)
Lemma C1_two_images_witness :
  let images := [lit "data:image/png;base64,AAAA"; lit "https://x/y.png"] in
  let config := Store.defaultLogicConfig in
  (1 <= List.length images)%nat
  /\ user_content (generateSchema_request (lit "abstract") config (Some images))
     = [image_url (lit "data:image/png;base64,AAAA");
        image_url (lit "https://x/y.png");
        text_part (generateSchema_prompt (lit "abstract"))].
Proof.
  cbv zeta. split; [simpl; lia|].
  pose proof (proj1 (C1_content_parts_images_then_text
                       (lit "abstract") (lit "schema") Store.defaultLogicConfig)
                [lit "data:image/png;base64,AAAA"; lit "https://x/y.png"]
                ltac:(simpl; lia)) as H.
  cbv zeta in H. destruct H as (_ & Hfirst & Hlast & _).
  rewrite <- (firstn_skipn 2 (user_content _)).
  change (List.length _) with 2%nat in Hfirst, Hlast.
  rewrite Hfirst, Hlast. reflexivity.
Defined.

End RequestBuilder.

(** ** The prompt templates *)

Section Templates.

Import Api.

Lemma ARCHITECT_placeholder :
  indexOf (lit "{paper_content}") ARCHITECT_PROMPT_TEMPLATE = Some 396%nat.
Proof. vm_compute. reflexivity. Qed.

Lemma RENDERER_placeholder :
  indexOf (lit "{visual_schema_content}") RENDERER_PROMPT_TEMPLATE
    = Some 165%nat.
Proof. vm_compute. reflexivity. Qed.

Lemma RENDERER_WITH_REFERENCES_placeholder :
  indexOf (lit "{visual_schema_content}") RENDERER_WITH_REFERENCES_TEMPLATE
    = Some 188%nat.
Proof. vm_compute. reflexivity. Qed.

(** Each template holds its placeholder once. *)
Lemma placeholders_occur_once :
  indexOf (lit "{paper_content}")
    (skipn (396 + 15) ARCHITECT_PROMPT_TEMPLATE) = None
  /\ indexOf (lit "{visual_schema_content}")
       (skipn (165 + 23) RENDERER_PROMPT_TEMPLATE) = None
  /\ indexOf (lit "{visual_schema_content}")
       (skipn (188 + 23) RENDERER_WITH_REFERENCES_TEMPLATE) = None.
Proof. repeat split; vm_compute; reflexivity. Qed.

Lemma template_lengths :
  List.length ARCHITECT_PROMPT_TEMPLATE = 1074%nat
  /\ List.length RENDERER_PROMPT_TEMPLATE = 375%nat
  /\ List.length RENDERER_WITH_REFERENCES_TEMPLATE = 464%nat.
Proof. repeat split; vm_compute; reflexivity. Qed.

(** For a value without [$], each of the three substitutions yields the
    template with the placeholder span replaced by the value and every
    other character of the template, the section markers included, as it
    was. *)
Lemma substitution_plain (v img : jsstring) (refs : list jsstring) :
  Forall (fun c => c <> DOLLAR) v ->
  generateSchema_prompt v
    = firstn 396 ARCHITECT_PROMPT_TEMPLATE ++ v
        ++ skipn (396 + 15) ARCHITECT_PROMPT_TEMPLATE
  /\ renderImage_prompt v None
    = firstn 165 RENDERER_PROMPT_TEMPLATE ++ v
        ++ skipn (165 + 23) RENDERER_PROMPT_TEMPLATE
  /\ renderImage_prompt v (Some (img :: refs))
    = firstn 188 RENDERER_WITH_REFERENCES_TEMPLATE ++ v
        ++ skipn (188 + 23) RENDERER_WITH_REFERENCES_TEMPLATE.
Proof.
  intros Hv. repeat split.
  - exact (proj2 (replace_plain _ _ v _ ARCHITECT_placeholder Hv)).
  - exact (proj2 (replace_plain _ _ v _ RENDERER_placeholder Hv)).
  - exact (proj2 (replace_plain _ _ v _
                    RENDERER_WITH_REFERENCES_placeholder Hv)).
Qed.

(** C6. The substitution is [String.prototype.replace] with the value as
    replacement text, which expands the patterns [$$], [$&], [$`] and [$']
    of the value: for the paper content [$$E=mc^2$$] the prompt holds
    [$E=mc^2$] in the placeholder's span, not the value, and for [$&] the
    prompt is the template with its placeholder still in it. *)
Theorem C6_dollar_patterns_of_the_value_are_expanded :
  let pre := firstn 396 ARCHITECT_PROMPT_TEMPLATE in
  let post := skipn (396 + 15) ARCHITECT_PROMPT_TEMPLATE in
  ARCHITECT_PROMPT_TEMPLATE = pre ++ lit "{paper_content}" ++ post
  /\ generateSchema_prompt (lit "$$E=mc^2$$") = pre ++ lit "$E=mc^2$" ++ post
  /\ generateSchema_prompt (lit "$$E=mc^2$$")
     <> pre ++ lit "$$E=mc^2$$" ++ post
  /\ generateSchema_prompt (lit "$&") = ARCHITECT_PROMPT_TEMPLATE
  /\ generateSchema_prompt (lit "$&") <> pre ++ lit "$&" ++ post.
Proof.
  cbv zeta. split; [vm_compute; reflexivity|].
  split; [vm_compute; reflexivity|].
  split; [intros H; apply (f_equal (@List.length N)) in H;
          vm_compute in H; discriminate|].
  split; [vm_compute; reflexivity|].
  intros H; apply (f_equal (@List.length N)) in H;
    vm_compute in H; discriminate.
Qed.

Lemma replace_keeps_following (s p v phrase : jsstring) (pos : nat) :
  indexOf p s = Some pos ->
  includes phrase (skipn (pos + List.length p) s) = true ->
  includes phrase (replace s p v) = true.
Proof.
  intros Hpos Hin. rewrite (replace_found s p v pos Hpos).
  unfold includes in Hin.
  destruct (indexOf phrase (skipn (pos + List.length p) s)) as [k|] eqn:E;
    [|discriminate].
  apply indexOf_split in E. rewrite E at 2.
  rewrite !app_assoc. rewrite <- (app_assoc _ phrase).
  apply includes_app.
Qed.

(** Whatever the paper content, the section markers of the architect
    template are in the prompt. *)
Lemma markers_kept (paperContent : jsstring) :
  includes (lit "---BEGIN PROMPT---") (generateSchema_prompt paperContent)
    = true
  /\ includes (lit "---END PROMPT---") (generateSchema_prompt paperContent)
    = true.
Proof.
  split; apply (replace_keeps_following _ _ _ _ _ ARCHITECT_placeholder);
    vm_compute; reflexivity.
Qed.

(** C7. [renderImage] chooses its template by the presence of reference
    images alone: with at least one reference image the prompt sent is the
    references template with the schema substituted, and it holds that
    template's sentence about the reference images; with none (no list, or
    the empty list) it is the plain renderer template with the schema
    substituted, and it holds that template's own sentence. Neither
    sentence occurs in the other template. *)
Theorem C7_template_selection_by_reference_presence :
  forall (visualSchema : jsstring) (config : ModelConfig),
    (forall refs : list jsstring,
        (1 <= List.length refs)%nat ->
        let prompt :=
          replace RENDERER_WITH_REFERENCES_TEMPLATE
            (lit "{visual_schema_content}") visualSchema in
        last (user_content
                (renderImage_request visualSchema config (Some refs)))
             (text_part []) = text_part prompt
        /\ includes REFERENCES_PHRASE prompt = true)
    /\ (forall refs : option (list jsstring),
        refs = None \/ refs = Some [] ->
        let prompt :=
          replace RENDERER_PROMPT_TEMPLATE
            (lit "{visual_schema_content}") visualSchema in
        user_content (renderImage_request visualSchema config refs)
          = [text_part prompt]
        /\ includes PLAIN_PHRASE prompt = true)
    /\ includes REFERENCES_PHRASE RENDERER_PROMPT_TEMPLATE = false
    /\ includes PLAIN_PHRASE RENDERER_WITH_REFERENCES_TEMPLATE = false.
Proof.
  intros visualSchema config. split; [|split; [|split]].
  - intros refs HK. cbv zeta. rewrite renderImage_content.
    destruct refs as [|i l]; [simpl in HK; lia|].
    split.
    + now rewrite last_last.
    + apply (replace_keeps_following _ _ _ _ _
               RENDERER_WITH_REFERENCES_placeholder).
      vm_compute. reflexivity.
  - intros refs Hrefs. cbv zeta. rewrite renderImage_content.
    split.
    + now destruct Hrefs as [-> | ->].
    + apply (replace_keeps_following _ _ _ _ _ RENDERER_placeholder).
      vm_compute. reflexivity.
  - vm_compute. reflexivity.
  - vm_compute. reflexivity.
Qed.

(** C7 on one reference image. *)
Lemma C7_one_reference_witness :
  (1 <= List.length [lit "data:image/png;base64,AAAA"])%nat
  /\ includes REFERENCES_PHRASE
       (replace RENDERER_WITH_REFERENCES_TEMPLATE
          (lit "{visual_schema_content}") (lit "[DIAGRAM TITLE]")) = true.
Proof.
  split; [simpl; lia|].
  exact (proj2 (proj1 (C7_template_selection_by_reference_presence
                         (lit "[DIAGRAM TITLE]") Store.defaultVisionConfig)
                  [lit "data:image/png;base64,AAAA"] ltac:(simpl; lia))).
Defined.

End Templates.

(** ** The regular-expression matcher *)

Section Matcher.

Import RegExp.

Lemma matchHere_One (p : N -> bool) (r : regex) (b : bool) (s : jsstring) :
  matchHere (One p :: r) b s =
    match s with
    | [] => None
    | c :: s' =>
        if p c then option_map (cons c) (matchHere r false s') else None
    end.
Proof. reflexivity. Qed.

Lemma matchHere_Plus (p : N -> bool) (r : regex) (b : bool) (s : jsstring) :
  matchHere (Plus p :: r) b s =
    match s with
    | [] => None
    | c :: s' =>
        if p c then
          match matchHere (Plus p :: r) false s' with
          | Some m => Some (c :: m)
          | None => option_map (cons c) (matchHere r false s')
          end
        else None
    end.
Proof. destruct s; reflexivity. Qed.

(** A literal matches exactly itself. *)
Lemma matchHere_chars (l : jsstring) (r : regex) (b : bool) (s : jsstring) :
  matchHere (chars l ++ r) b s =
    if starts_with l s
    then option_map (app l)
           (matchHere r (match l with [] => b | _ :: _ => false end)
              (skipn (List.length l) s))
    else None.
Proof.
  revert b s; induction l as [|a l IH]; intros b s.
  - simpl. now destruct (matchHere r b s).
  - change (chars (a :: l) ++ r) with (One (N.eqb a) :: (chars l ++ r)).
    rewrite matchHere_One. destruct s as [|c s]; [reflexivity|].
    simpl starts_with. destruct (N.eqb_spec a c) as [<-|Hne]; [|reflexivity].
    rewrite IH. simpl. destruct (starts_with l s); [|reflexivity].
    assert (Hb : matchHere r (match l with [] => false | _ :: _ => false end)
                 = matchHere r false) by now destruct l.
    rewrite Hb. now destruct (matchHere r false (skipn (List.length l) s)).
Qed.

(** A greedy [+] whose continuation cannot start inside the class takes
    the whole run of the class: backtracking into the run never helps. *)
Lemma matchHere_Plus_run (p : N -> bool) (r : regex) (b : bool)
    (s : jsstring) :
  (forall s' m, matchHere r false s' = Some m -> takeWhile p s' = []) ->
  matchHere (Plus p :: r) b s =
    match takeWhile p s with
    | [] => None
    | run => option_map (app run) (matchHere r false (dropWhile p s))
    end.
Proof.
  intros Hr. revert b; induction s as [|c s IH]; intros b;
    rewrite matchHere_Plus; [reflexivity|].
  cbn [takeWhile dropWhile]. destruct (p c) eqn:Hc; [|reflexivity].
  rewrite IH. destruct (takeWhile p s) as [|c' run] eqn:Hrun.
  - rewrite (takeWhile_nil_dropWhile p s Hrun).
    now destruct (matchHere r false s).
  - destruct (matchHere r false (dropWhile p s)) as [m|]; [reflexivity|].
    simpl. destruct (matchHere r false s) as [m|] eqn:Hm; [|reflexivity].
    apply Hr in Hm. congruence.
Qed.

(** A greedy [+] at the end of the pattern takes the whole run. *)
Lemma matchHere_Plus_end (p : N -> bool) (b : bool) (s : jsstring) :
  matchHere [Plus p] b s =
    match takeWhile p s with
    | [] => None
    | run => Some run
    end.
Proof.
  revert b; induction s as [|c s IH]; intros b;
    rewrite matchHere_Plus; [reflexivity|].
  cbn [takeWhile]. destruct (p c); [|reflexivity].
  rewrite IH. now destruct (takeWhile p s).
Qed.

(** [exec] returns the match at the smallest index that has one. *)
Lemma execFrom_Some (r : regex) (b : bool) (s : jsstring) (i : nat)
    (m : jsstring) :
  execFrom r b s = Some (i, m) ->
  (i <= List.length s)%nat
  /\ matchHere r (match i with O => b | S _ => false end) (skipn i s) = Some m
  /\ forall j, (j < i)%nat ->
       matchHere r (match j with O => b | S _ => false end) (skipn j s) = None.
Proof.
  revert b i; induction s as [|c s IH]; intros b i; simpl.
  - destruct (matchHere r b []) eqn:E; [|discriminate].
    intros [= <- <-]. repeat split; [lia|assumption|intros; lia].
  - destruct (matchHere r b (c :: s)) eqn:E.
    + intros [= <- <-]. repeat split; [lia|assumption|intros; lia].
    + destruct (execFrom r false s) as [[i' m']|] eqn:E'; [|discriminate].
      intros [= <- <-]. destruct (IH false i' E') as (Hi & Hm & Hj).
      split; [lia|]. split.
      * simpl. now destruct i'.
      * intros [|j] Hlt; [exact E|]. simpl.
        specialize (Hj j ltac:(lia)). now destruct j.
Qed.

Lemma execFrom_None (r : regex) (b : bool) (s : jsstring) :
  execFrom r b s = None ->
  forall j, (j <= List.length s)%nat ->
    matchHere r (match j with O => b | S _ => false end) (skipn j s) = None.
Proof.
  revert b; induction s as [|c s IH]; intros b; simpl.
  - destruct (matchHere r b []) eqn:E; [discriminate|].
    intros _ [|j] Hj; [exact E|lia].
  - destruct (matchHere r b (c :: s)) eqn:E; [discriminate|].
    destruct (execFrom r false s) as [[i' m']|] eqn:E'; [discriminate|].
    intros _ [|j] Hj; [exact E|]. simpl.
    specialize (IH false E' j ltac:(lia)). now destruct j.
Qed.

(** A pattern that starts with [^] matches at index 0 or nowhere. *)
Lemma execFrom_anchored (r : regex) (s : jsstring) :
  execFrom (AssertStart :: r) false s = None.
Proof. induction s as [|c s IH]; simpl; [reflexivity|]. now rewrite IH. Qed.

End Matcher.

(** ** The image-detection cascade *)

Section Cascade.

Import RegExp Api.

Lemma separator_stops_subtype (s : jsstring) (m : jsstring) :
  matchHere (chars (lit ";base64,") ++ [Plus isBase64Char]) false s = Some m ->
  takeWhile notSemicolon s = [].
Proof.
  rewrite matchHere_chars.
  destruct (starts_with (lit ";base64,") s) eqn:E; [|discriminate].
  intros _. apply starts_with_split in E. rewrite E. reflexivity.
Qed.

(** What the embedded-URL pattern matches at the head of a text. *)
Lemma matchHere_base64Pattern (b : bool) (s : jsstring) :
  matchHere base64Pattern b s =
    if starts_with (lit "data:image/") s then
      match takeWhile notSemicolon (skipn 11 s) with
      | [] => None
      | subtype =>
          let rest := dropWhile notSemicolon (skipn 11 s) in
          if starts_with (lit ";base64,") rest then
            match takeWhile isBase64Char (skipn 8 rest) with
            | [] => None
            | payload =>
                Some (lit "data:image/" ++ subtype ++ lit ";base64," ++ payload)
            end
          else None
      end
    else None.
Proof.
  unfold base64Pattern. rewrite matchHere_chars.
  destruct (starts_with (lit "data:image/") s); [|reflexivity].
  change (List.length (lit "data:image/")) with 11%nat.
  change (match lit "data:image/" with [] => b | _ :: _ => false end)
    with false.
  change ([Plus notSemicolon] ++ chars (lit ";base64,") ++ [Plus isBase64Char])
    with (Plus notSemicolon :: (chars (lit ";base64,") ++ [Plus isBase64Char])).
  rewrite (matchHere_Plus_run _ _ _ _ separator_stops_subtype).
  destruct (takeWhile notSemicolon (skipn 11 s)) as [|c subtype];
    [reflexivity|].
  rewrite matchHere_chars. cbv zeta.
  destruct (starts_with (lit ";base64,") (dropWhile notSemicolon (skipn 11 s)));
    [|reflexivity].
  change (List.length (lit ";base64,")) with 8%nat.
  rewrite matchHere_Plus_end.
  destruct (takeWhile isBase64Char
              (skipn 8 (dropWhile notSemicolon (skipn 11 s))));
    reflexivity.
Qed.

Lemma notSemicolon_true (c : N) : notSemicolon c = true <-> c <> 59.
Proof.
  unfold notSemicolon. rewrite negb_true_iff. apply N.eqb_neq.
Qed.

(** A match of the pattern is a data-URL literal at the head of the text,
    with its payload as long as the text allows. *)
Lemma matchHere_base64Pattern_sound (b : bool) (s m : jsstring) :
  matchHere base64Pattern b s = Some m ->
  is_data_url m
  /\ exists post, s = m ++ post /\ takeWhile isBase64Char post = [].
Proof.
  rewrite matchHere_base64Pattern.
  destruct (starts_with (lit "data:image/") s) eqn:Hd; [|discriminate].
  apply starts_with_split in Hd.
  change (List.length (lit "data:image/")) with 11%nat in Hd.
  set (s1 := skipn 11 s) in *.
  pose proof (takeWhile_dropWhile notSemicolon s1) as Hs1.
  pose proof (takeWhile_Forall notSemicolon s1) as Hsub.
  destruct (takeWhile notSemicolon s1) as [|c subtype] eqn:Esub;
    [discriminate|].
  cbv zeta. set (s2 := dropWhile notSemicolon s1) in *.
  destruct (starts_with (lit ";base64,") s2) eqn:Hsep; [|discriminate].
  apply starts_with_split in Hsep.
  change (List.length (lit ";base64,")) with 8%nat in Hsep.
  set (s3 := skipn 8 s2) in *.
  pose proof (takeWhile_dropWhile isBase64Char s3) as Hs3.
  pose proof (takeWhile_Forall isBase64Char s3) as Hpay.
  pose proof (takeWhile_dropWhile_nil isBase64Char s3) as Hmax.
  destruct (takeWhile isBase64Char s3) as [|c' payload] eqn:Epay;
    [discriminate|].
  intros [= <-]. split.
  - exists (c :: subtype), (c' :: payload).
    repeat split; try discriminate; try assumption.
    eapply Forall_impl; [|exact Hsub]. intros a. apply notSemicolon_true.
  - exists (dropWhile isBase64Char s3). split; [|assumption].
    rewrite Hd, Hs1, Hsep, Hs3 at 1.
    simpl. now rewrite <- app_assoc.
Qed.

(** Wherever a data-URL literal stands, the pattern matches, taking the
    literal and as much more payload as follows it. *)
Lemma matchHere_base64Pattern_complete (b : bool) (m post : jsstring) :
  is_data_url m ->
  matchHere base64Pattern b (m ++ post)
    = Some (m ++ takeWhile isBase64Char post).
Proof.
  intros (subtype & payload & -> & Hsub0 & Hsub & Hpay0 & Hpay).
  rewrite matchHere_base64Pattern. rewrite <- !app_assoc.
  rewrite starts_with_app.
  set (tail := payload ++ post).
  assert (Hsub' : Forall (fun c => notSemicolon c = true) subtype).
  { eapply Forall_impl; [|exact Hsub]. intros a. apply notSemicolon_true. }
  destruct (takeWhile_app notSemicolon subtype (lit ";base64," ++ tail) Hsub')
    as [E1 E2].
  change (skipn 11 (lit "data:image/" ++ subtype ++ lit ";base64," ++ tail))
    with (subtype ++ lit ";base64," ++ tail).
  rewrite E1, E2.
  change (takeWhile notSemicolon (lit ";base64," ++ tail)) with (@nil N).
  change (dropWhile notSemicolon (lit ";base64," ++ tail))
    with (lit ";base64," ++ tail).
  rewrite app_nil_r.
  destruct subtype as [|c subtype]; [contradiction|].
  cbv zeta. rewrite starts_with_app.
  change (skipn 8 (lit ";base64," ++ tail)) with tail.
  destruct (takeWhile_app isBase64Char payload post Hpay) as [E3 _].
  unfold tail. rewrite E3.
  destruct payload as [|c' payload]; [contradiction|]. reflexivity.
Qed.

Lemma skipn_length_app {A} (l1 l2 : list A) :
  skipn (List.length l1) (l1 ++ l2) = l2.
Proof. induction l1; simpl; auto. Qed.

Lemma free_of_anchors (j : nat) (s : jsstring) :
  matchHere base64Pattern (match j with O => true | S _ => false end) s
    = matchHere base64Pattern false s.
Proof. now rewrite !matchHere_base64Pattern. Qed.

(** The result of [match] is the leftmost data-URL literal of the text,
    with the longest payload. *)
Lemma match0_base64Pattern_Some (s m : jsstring) :
  match0 base64Pattern s = Some m ->
  exists pre post,
    s = pre ++ m ++ post
    /\ is_data_url m
    /\ takeWhile isBase64Char post = []
    /\ forall pre' m' post',
         s = pre' ++ m' ++ post' -> is_data_url m' ->
         (List.length pre <= List.length pre')%nat.
Proof.
  unfold match0, exec.
  destruct (execFrom base64Pattern true s) as [[i m0]|] eqn:E;
    [|discriminate].
  simpl. intros [= ->].
  apply execFrom_Some in E as (Hi & Hm & Hbefore).
  rewrite free_of_anchors in Hm.
  apply matchHere_base64Pattern_sound in Hm as (Hurl & post & Hs & Hmax).
  exists (firstn i s), post. repeat split; try assumption.
  - rewrite <- Hs. symmetry. apply firstn_skipn.
  - intros pre' m' post' Hs' Hurl'.
    rewrite length_firstn, Nat.min_l by exact Hi.
    destruct (Nat.le_gt_cases i (List.length pre')) as [Hle|Hlt];
      [exact Hle|exfalso].
    specialize (Hbefore _ Hlt). rewrite free_of_anchors in Hbefore.
    rewrite Hs', skipn_length_app in Hbefore.
    rewrite (matchHere_base64Pattern_complete false m' post' Hurl') in Hbefore.
    discriminate.
Qed.

(** [match] finds nothing exactly when the text holds no data-URL
    literal. *)
Lemma match0_base64Pattern_None (s : jsstring) :
  match0 base64Pattern s = None <-> ~ contains_data_url s.
Proof.
  split.
  - unfold match0, exec.
    destruct (execFrom base64Pattern true s) as [[i m0]|] eqn:E;
      [discriminate|].
    intros _ (pre & m & post & Hs & Hurl).
    pose proof (execFrom_None _ _ _ E (List.length pre)) as Hnone.
    rewrite free_of_anchors in Hnone.
    rewrite Hs, skipn_length_app in Hnone.
    rewrite (matchHere_base64Pattern_complete false m post Hurl) in Hnone.
    rewrite length_app in Hnone. discriminate Hnone. lia.
  - intros Hno. destruct (match0 base64Pattern s) as [m|] eqn:E;
      [|reflexivity].
    exfalso. apply Hno.
    apply match0_base64Pattern_Some in E as (pre & post & Hs & Hurl & _).
    now exists pre, m, post.
Qed.

Lemma execFrom_unfold (r : regex) (b : bool) (s : jsstring) :
  execFrom r b s =
    match matchHere r b s with
    | Some m => Some (O, m)
    | None =>
        match s with
        | [] => None
        | _ :: s' =>
            match execFrom r false s' with
            | Some (i, m) => Some (S i, m)
            | None => None
            end
        end
    end.
Proof. destruct s; reflexivity. Qed.

(** The whole-text pattern holds of the non-empty texts made of base64
    characters and white space only. *)
Lemma test_rawBase64Pattern (s : jsstring) :
  test rawBase64Pattern s = true
  <-> s <> [] /\ Forall (fun c => isBase64OrSpace c = true) s.
Proof.
  unfold test, exec, rawBase64Pattern.
  assert (Hexec :
    execFrom [AssertStart; Plus isBase64OrSpace; AssertEnd] true s
    = option_map (pair O)
        (matchHere [Plus isBase64OrSpace; AssertEnd] true s)).
  { rewrite execFrom_unfold.
    change (matchHere [AssertStart; Plus isBase64OrSpace; AssertEnd] true s)
      with (matchHere [Plus isBase64OrSpace; AssertEnd] true s).
    destruct (matchHere [Plus isBase64OrSpace; AssertEnd] true s);
      [reflexivity|].
    destruct s; [reflexivity|]. now rewrite execFrom_anchored. }
  rewrite Hexec. clear Hexec.
  rewrite matchHere_Plus_run.
  2:{ intros [|c s'] m; [reflexivity|discriminate]. }
  pose proof (takeWhile_dropWhile isBase64OrSpace s) as Hs.
  pose proof (takeWhile_all isBase64OrSpace s) as Hall.
  destruct (takeWhile isBase64OrSpace s) as [|c run] eqn:Erun.
  - simpl. split; [discriminate|].
    intros [Hne H]. apply Hall in H. congruence.
  - destruct (dropWhile isBase64OrSpace s) as [|c' rest] eqn:Erest.
    + rewrite app_nil_r in Hs. simpl. split; [|reflexivity].
      intros _. split; [now rewrite Hs|]. apply Hall. now symmetry.
    + simpl. split; [discriminate|].
      intros [_ H]. apply Hall in H. rewrite <- H in Hs at 1.
      rewrite <- (app_nil_r (c :: run)) in Hs at 1.
      apply app_inv_head in Hs. discriminate.
Qed.

Lemma extractImage_embedded (s m : jsstring) :
  match0 base64Pattern s = Some m ->
  extractImage s = {| imageUrl := Some m; text := None |}.
Proof.
  intros Hm. unfold extractImage. rewrite Hm.
  destruct s as [|c s]; [|reflexivity].
  vm_compute in Hm. discriminate.
Qed.

Lemma extractImage_no_embedded (s : jsstring) :
  match0 base64Pattern s = None ->
  extractImage s =
    if Nat.ltb 1000 (List.length s) && test rawBase64Pattern s
    then {| imageUrl := Some (lit "data:image/png;base64," ++ trim s);
            text := None |}
    else {| imageUrl := None; text := Some s |}.
Proof.
  intros Hm. unfold extractImage. rewrite Hm.
  destruct s as [|c s]; reflexivity.
Qed.

(** [renderImage] applies the cascade to the text of the first choice, the
    empty string when there is none; an error of the remote call is the
    result as it is. *)
Lemma renderImage_result (RemoteError : Type)
    (create : jsstring -> jsstring -> ChatRequest
              -> RemoteError + ChatCompletion)
    (visualSchema : jsstring) (config : ModelConfig)
    (referenceImages : option (list jsstring)) :
  match create (apiKey config) (baseUrl config)
          (renderImage_request visualSchema config referenceImages) with
  | inl e =>
      renderImage create visualSchema config referenceImages = inl e
  | inr response =>
      renderImage create visualSchema config referenceImages
        = inr (extractImage (or_empty (first_content response)))
  end.
Proof. unfold renderImage. now destruct (create _ _ _). Qed.

(** C2. For a response text without an embedded data-URL literal,
    [renderImage] answers with the image URL made of the PNG data-URL
    prefix and the trimmed text, and no text, exactly when the text is
    longer than 1000 characters and consists of base64 characters and
    white space only; otherwise it answers with a null image and the text
    as it is. For the empty text the answer is a null image and the empty
    string as text. *)
Theorem C2_raw_base64_needs_more_than_1000_characters :
  (forall resultContent : jsstring,
      ~ contains_data_url resultContent ->
      let raw :=
        (1000 < List.length resultContent)%nat
        /\ Forall (fun c => isBase64OrSpace c = true) resultContent in
      (extractImage resultContent
         = {| imageUrl := Some (lit "data:image/png;base64,"
                                  ++ trim resultContent);
              text := None |}
       <-> raw)
      /\ (~ raw ->
          extractImage resultContent
            = {| imageUrl := None; text := Some resultContent |}))
  /\ extractImage (lit "") = {| imageUrl := None; text := Some (lit "") |}.
Proof.
  split; [|reflexivity].
  intros s Hno. cbv zeta.
  apply match0_base64Pattern_None in Hno.
  rewrite (extractImage_no_embedded s Hno).
  assert (Hraw :
    Nat.ltb 1000 (List.length s) && test rawBase64Pattern s = true
    <-> (1000 < List.length s)%nat
        /\ Forall (fun c => isBase64OrSpace c = true) s).
  { rewrite andb_true_iff, Nat.ltb_lt, test_rawBase64Pattern.
    split; [tauto|]. intros [Hlen Hall]. repeat split; try assumption.
    destruct s; [simpl in Hlen; lia|discriminate]. }
  destruct (Nat.ltb 1000 (List.length s) && test rawBase64Pattern s).
  - split; [split; [intros _; now apply Hraw|reflexivity]|].
    intros Hn. exfalso. apply Hn. now apply Hraw.
  - split; [split; [discriminate|]|reflexivity].
    intros H. apply Hraw in H. discriminate.
Qed.

(** C2 on 1001 letters A followed by a line break. *)
Lemma C2_long_base64_witness :
  ~ contains_data_url (repeat 65 1001 ++ [10])
  /\ extractImage (repeat 65 1001 ++ [10])
     = {| imageUrl := Some (lit "data:image/png;base64," ++ repeat 65 1001);
          text := None |}.
Proof.
  assert (Hno : ~ contains_data_url (repeat 65 1001 ++ [10])).
  { apply match0_base64Pattern_None. vm_compute. reflexivity. }
  split; [exact Hno|].
  pose proof (proj1 C2_raw_base64_needs_more_than_1000_characters
                (repeat 65 1001 ++ [10]) Hno) as H.
  cbv zeta in H. destruct H as [[_ H] _].
  rewrite H.
  - vm_compute. reflexivity.
  - split.
    + vm_compute. lia.
    + apply Forall_forall. intros c Hc. apply in_app_or in Hc as [Hc|Hc].
      * apply repeat_spec in Hc. now subst c.
      * destruct Hc as [<-|[]]. reflexivity.
Defined.

(** A pattern that matches across the end of [x] either matches inside
    [x] or has a proper suffix that starts what follows. *)
Lemma starts_with_across (d x y : jsstring) :
  starts_with d (x ++ y) = true ->
  starts_with d x = true
  \/ ((List.length x < List.length d)%nat
      /\ starts_with (skipn (List.length x) d) y = true).
Proof.
  revert x; induction d as [|a d IH]; intros x H; [now left|].
  destruct x as [|b x].
  - right. split; [simpl; lia|exact H].
  - simpl in H. apply andb_prop in H as [Hab H].
    destruct (IH x H) as [Hin|[Hlen Hsuf]].
    + left. simpl. now rewrite Hab.
    + right. split; [simpl; lia|exact Hsuf].
Qed.

Lemma includes_cons_false (d : jsstring) (c : N) (x : jsstring) :
  includes d (c :: x) = false ->
  starts_with d (c :: x) = false /\ includes d x = false.
Proof.
  unfold includes. rewrite indexOf_unfold.
  destruct (starts_with d (c :: x)); [discriminate|].
  destruct (indexOf d x); [discriminate|]. now split.
Qed.

(** The scheme [data:image/] cannot begin in the text before a literal
    and end inside the literal. *)
Lemma scheme_not_across (c : N) (x rest : jsstring) :
  starts_with (lit "data:image/") (c :: x) = false ->
  starts_with (lit "data:image/")
    ((c :: x) ++ lit "data:image/png;base64,AAAA" ++ rest) = false.
Proof.
  intros Hx.
  destruct (starts_with (lit "data:image/")
              ((c :: x) ++ lit "data:image/png;base64,AAAA" ++ rest)) eqn:E;
    [exfalso|reflexivity].
  apply starts_with_across in E as [E|[Hlen E]]; [congruence|].
  change (List.length (lit "data:image/")) with 11%nat in Hlen.
  simpl List.length in Hlen, E. revert E.
  generalize (List.length x), Hlen. clear.
  intros k Hk.
  do 10 (destruct k as [|k]; [vm_compute; discriminate|]). lia.
Qed.

Lemma execFrom_literal_in_sentence (b : bool) (pre post : jsstring) :
  includes (lit "data:image/") pre = false ->
  takeWhile isBase64Char post = [] ->
  execFrom base64Pattern b (pre ++ lit "data:image/png;base64,AAAA" ++ post)
    = Some (List.length pre, lit "data:image/png;base64,AAAA").
Proof.
  intros Hpre Hpost. revert b; induction pre as [|c pre IH]; intros b;
    rewrite execFrom_unfold.
  - assert (Hurl : is_data_url (lit "data:image/png;base64,AAAA")).
    { exists (lit "png"), (lit "AAAA").
      repeat split; try discriminate;
        repeat (constructor; try discriminate; try reflexivity). }
    change ([] ++ lit "data:image/png;base64,AAAA" ++ post)
      with (lit "data:image/png;base64,AAAA" ++ post).
    rewrite (matchHere_base64Pattern_complete b _ post Hurl), Hpost.
    now rewrite app_nil_r.
  - apply includes_cons_false in Hpre as [Hc Hpre].
    assert (Hm : matchHere base64Pattern b
                   ((c :: pre) ++ lit "data:image/png;base64,AAAA" ++ post)
                 = None).
    { rewrite matchHere_base64Pattern.
      now rewrite (scheme_not_across c pre post Hc). }
    rewrite Hm.
    change ((c :: pre) ++ lit "data:image/png;base64,AAAA" ++ post)
      with (c :: (pre ++ lit "data:image/png;base64,AAAA" ++ post)).
    cbv iota. now rewrite (IH Hpre false).
Qed.

(** C3. For a response text that holds an embedded data-URL literal
    (the scheme [data:image/], a media subtype without [;], [;base64,] and
    a non-empty payload), [renderImage] answers with a literal of the text
    as the image URL and no text: the literal that starts first in the
    text, its subtype running up to the first [;] and its payload as long
    as the text allows; such a text never passes the whole-text base64
    check that comes after, whatever its length. When the literal
    [data:image/png;base64,AAAA] stands in a text with no [data:image/]
    before it and no base64 character right after it, the image URL is
    that literal. *)
Theorem C3_embedded_data_url_is_found_first :
  (forall resultContent : jsstring,
      contains_data_url resultContent ->
      (exists pre m post,
          resultContent = pre ++ m ++ post
          /\ is_data_url m
          /\ extractImage resultContent
             = {| imageUrl := Some m; text := None |}
          /\ takeWhile isBase64Char post = []
          /\ forall pre' m' post',
               resultContent = pre' ++ m' ++ post' -> is_data_url m' ->
               (List.length pre <= List.length pre')%nat)
      /\ test rawBase64Pattern resultContent = false)
  /\ (forall pre post : jsstring,
        includes (lit "data:image/") pre = false ->
        takeWhile isBase64Char post = [] ->
        extractImage (pre ++ lit "data:image/png;base64,AAAA" ++ post)
        = {| imageUrl := Some (lit "data:image/png;base64,AAAA");
             text := None |})
  /\ extractImage
       (lit "Here is the diagram: data:image/png;base64,AAAA as requested.")
     = {| imageUrl := Some (lit "data:image/png;base64,AAAA");
          text := None |}.
Proof.
  split; [|split; [|vm_compute; reflexivity]].
  2:{ intros pre post Hpre Hpost. apply extractImage_embedded.
      unfold match0, exec.
      now rewrite (execFrom_literal_in_sentence true pre post Hpre Hpost). }
  intros s Hc. split.
  - destruct (match0 base64Pattern s) as [m|] eqn:E.
    + pose proof (extractImage_embedded s m E) as Hx.
      apply match0_base64Pattern_Some in E
        as (pre & post & Hs & Hurl & Hmax & Hleft).
      exists pre, m, post. repeat split; assumption.
    + apply match0_base64Pattern_None in E. contradiction.
  - destruct (test rawBase64Pattern s) eqn:Et; [exfalso|reflexivity].
    apply test_rawBase64Pattern in Et as [_ Hall].
    destruct Hc as (pre & m & post & -> & sub & pay & -> & _).
    apply Forall_app in Hall as [_ Hall].
    apply Forall_app in Hall as [Hall _].
    apply Forall_app in Hall as [Hall _].
    rewrite Forall_forall in Hall.
    specialize (Hall 58 ltac:(vm_compute; tauto)). discriminate.
Qed.

(** C3 on a sentence with two literals, and on the literal between a
    sentence's words. *)
Lemma C3_first_literal_witness :
  let s := lit "a data:image/gif;base64,QQ== b data:image/png;base64,AAAA" in
  (contains_data_url s
   /\ exists pre post,
        s = pre ++ lit "data:image/gif;base64,QQ==" ++ post
        /\ extractImage s
           = {| imageUrl := Some (lit "data:image/gif;base64,QQ==");
                text := None |})
  /\ (includes (lit "data:image/") (lit "The figure: ") = false
      /\ takeWhile isBase64Char (lit ", as asked.") = []
      /\ extractImage
           (lit "The figure: " ++ lit "data:image/png;base64,AAAA"
              ++ lit ", as asked.")
         = {| imageUrl := Some (lit "data:image/png;base64,AAAA");
              text := None |}).
Proof.
  cbv zeta.
  assert (Hc : contains_data_url
                 (lit "a data:image/gif;base64,QQ== b data:image/png;base64,AAAA")).
  { exists (lit "a "), (lit "data:image/gif;base64,QQ=="),
      (lit " b data:image/png;base64,AAAA").
    split; [reflexivity|].
    exists (lit "gif"), (lit "QQ==").
    repeat split; try discriminate;
      repeat (constructor; try discriminate; try reflexivity). }
  split.
  - split; [exact Hc|].
    destruct (proj1 (proj1 C3_embedded_data_url_is_found_first _ Hc))
      as (pre & m & post & Hs & _ & Hx & _).
    assert (Hm : m = lit "data:image/gif;base64,QQ==").
    { vm_compute in Hx. now injection Hx as <-. }
    subst m. now exists pre, post.
  - split; [reflexivity|split; [reflexivity|]].
    exact (proj1 (proj2 C3_embedded_data_url_is_found_first)
             (lit "The figure: ") (lit ", as asked.") eq_refl eq_refl).
Defined.

(** The literal [data:image/png;base64,AAAA] inside a text is not always
    what [renderImage] answers with. After an earlier [data:image/] the
    match starts there and runs on to the literal's [;]; before a base64
    character the payload runs on past the literal. *)
Lemma C3_literal_in_a_sentence_counterexample :
  let literal := lit "data:image/png;base64,AAAA" in
  let s1 :=
    lit "Here is the data:image/png URL: data:image/png;base64,AAAA as requested." in
  let s2 := lit "Here it is: data:image/png;base64,AAAABBBB as requested." in
  ((exists pre post, s1 = pre ++ literal ++ post)
   /\ extractImage s1
      = {| imageUrl :=
             Some (lit "data:image/png URL: data:image/png;base64,AAAA");
           text := None |}
   /\ imageUrl (extractImage s1) <> Some literal)
  /\ ((exists pre post, s2 = pre ++ literal ++ post)
      /\ extractImage s2
         = {| imageUrl := Some (lit "data:image/png;base64,AAAABBBB");
              text := None |}
      /\ imageUrl (extractImage s2) <> Some literal).
Proof.
  cbv zeta. split; (split; [|split]).
  - exists (lit "Here is the data:image/png URL: "), (lit " as requested.").
    reflexivity.
  - vm_compute. reflexivity.
  - vm_compute. discriminate.
  - exists (lit "Here it is: "), (lit "BBBB as requested.").
    reflexivity.
  - vm_compute. reflexivity.
  - vm_compute. discriminate.
Qed.

End Cascade.

(** ** The workflow store *)

Section StoreFacts.

Import Store.

Variable Storage : Type.
Variable localStorage_setItem : jsstring -> jsstring -> Storage -> Exn + Storage.
Variable JSON_stringify : StorageValue -> jsstring.

Local Abbreviation World := (World Storage).
Local Abbreviation set_with := (set_with localStorage_setItem JSON_stringify).
Local Abbreviation set := (set localStorage_setItem JSON_stringify).
Local Abbreviation addToHistory :=
  (addToHistory localStorage_setItem JSON_stringify).
Local Abbreviation loadFromHistory :=
  (loadFromHistory localStorage_setItem JSON_stringify).
Local Abbreviation deleteFromHistory :=
  (deleteFromHistory localStorage_setItem JSON_stringify).
Local Abbreviation clearHistory :=
  (clearHistory localStorage_setItem JSON_stringify).
Local Abbreviation resetProject :=
  (resetProject localStorage_setItem JSON_stringify).
Local Abbreviation addAll := (addAll localStorage_setItem JSON_stringify).

(** The write that [set] attempts once the state in memory is [st]. *)
Local Abbreviation write st d :=
  (localStorage_setItem storage_name
     (JSON_stringify {| sv_state := partialize st; sv_version := 0 |}) d).

(** [set] merges into the state in memory, then writes; only a quota
    error of the write comes out of it. *)
Lemma set_with_cases (partial : WorkflowState -> Partial) (w : World) :
  set_with partial w =
    let st := Object_assign (mem w) (partial (mem w)) in
    match write st (disk w) with
    | inr d => (Normal tt, {| mem := st; disk := d |})
    | inl e =>
        if isQuota e
        then (Throw e, {| mem := st; disk := disk w |})
        else (Normal tt, {| mem := st; disk := disk w |})
    end.
Proof.
  unfold Store.set_with, bind, setState, persist_setItem, bind, get,
    safeStorage_setItem, try_catch, localStorage_setItem_call.
  cbn [mem disk].
  destruct (localStorage_setItem _ _ (disk w)) as [e|d]; [|reflexivity].
  destruct (isQuota e); reflexivity.
Qed.

Lemma set_with_mem (partial : WorkflowState -> Partial) (w : World) :
  mem (after (set_with partial) w) = Object_assign (mem w) (partial (mem w)).
Proof.
  unfold after. rewrite set_with_cases. cbv zeta.
  destruct (localStorage_setItem _ _ (disk w)) as [e|d]; [|reflexivity].
  destruct (isQuota e); reflexivity.
Qed.

Lemma set_mem (partial : Partial) (w : World) :
  mem (after (set partial) w) = Object_assign (mem w) partial.
Proof. apply set_with_mem. Qed.

Lemma after_try_catch {A} (body : M Storage A) (handler : Exn -> M Storage A)
    (w : World) :
  after (try_catch body handler) w =
    match completion body w with
    | Normal _ => after body w
    | Throw e => after (handler e) (after body w)
    end.
Proof.
  unfold after, completion, try_catch.
  destruct (body w) as [[a|e] w']; reflexivity.
Qed.

Lemma after_bind_get {A} (k : WorkflowState -> M Storage A) (w : World) :
  after (bind (@get Storage) k) w = after (k (mem w)) w.
Proof. reflexivity. Qed.

Lemma completion_bind_get {A} (k : WorkflowState -> M Storage A) (w : World) :
  completion (bind (@get Storage) k) w = completion (k (mem w)) w.
Proof. reflexivity. Qed.

(** [storageWarning] is not part of what is persisted. *)
Lemma partialize_storageWarning (st : WorkflowState) (b : bool) :
  partialize (Object_assign st [f_storageWarning b]) = partialize st.
Proof. destruct st; reflexivity. Qed.

(** The state in memory after [addToHistory], whether the write went
    through or not: the new item is in front of the four newest old
    ones. *)
Lemma addToHistory_history (item : HistoryInput) (uuid : jsstring) (now : Z)
    (w : World) :
  history (mem (after (addToHistory item uuid now) w))
    = newItem item uuid now :: firstn 4 (history (mem w)).
Proof.
  unfold Store.addToHistory. rewrite after_bind_get, after_try_catch.
  destruct (completion _ w); [|rewrite set_mem]; rewrite set_mem;
    destruct (mem w); reflexivity.
Qed.

(** A quota error of the write in [addToHistory]: the handler's own [set]
    writes the same persisted state again, the storage refuses it again,
    and this second error is not caught. *)
Lemma addToHistory_quota (item : HistoryInput) (uuid : jsstring) (now : Z)
    (w : World) (e : Exn) :
  let st :=
    Object_assign (mem w)
      [f_history (newItem item uuid now :: firstn 4 (history (mem w)));
       f_storageWarning false] in
  write st (disk w) = inl e ->
  isQuota e = true ->
  addToHistory item uuid now w
    = (Throw e,
       {| mem := Object_assign st [f_storageWarning true]; disk := disk w |}).
Proof.
  cbv zeta. intros Hw Hq.
  unfold Store.addToHistory, bind, get, try_catch, Store.set.
  change (MAX_HISTORY_ITEMS - 1)%nat with 4%nat.
  rewrite set_with_cases. cbv zeta. rewrite Hw, Hq.
  rewrite set_with_cases. cbn [mem disk].
  rewrite partialize_storageWarning, Hw, Hq. reflexivity.
Qed.

(** When the write goes through, [addToHistory] returns and the warning is
    off. *)
Lemma addToHistory_written (item : HistoryInput) (uuid : jsstring) (now : Z)
    (w : World) (d : Storage) :
  let st :=
    Object_assign (mem w)
      [f_history (newItem item uuid now :: firstn 4 (history (mem w)));
       f_storageWarning false] in
  write st (disk w) = inr d ->
  addToHistory item uuid now w = (Normal tt, {| mem := st; disk := d |})
  /\ storageWarning st = false.
Proof.
  cbv zeta. intros Hw. split; [|destruct (mem w); reflexivity].
  unfold Store.addToHistory, bind, get, try_catch, Store.set.
  change (MAX_HISTORY_ITEMS - 1)%nat with 4%nat.
  rewrite set_with_cases. cbv zeta. now rewrite Hw.
Qed.

(** [deleteFromHistory] and [clearHistory] put the warning off. *)
Lemma delete_and_clear_reset_storageWarning (w : World) (i : jsstring) :
  storageWarning (mem (after (deleteFromHistory i) w)) = false
  /\ storageWarning (mem (after clearHistory w)) = false.
Proof.
  unfold Store.deleteFromHistory, Store.clearHistory.
  rewrite set_with_mem, set_mem. destruct (mem w). now split.
Qed.

Lemma stored_imageUrl (c : HistoryInput * jsstring * Z) :
  imageUrl (stored c) = None.
Proof. now destruct c as [[item uuid] now]. Qed.

Lemma addAll_snoc (calls : list (HistoryInput * jsstring * Z))
    (c : HistoryInput * jsstring * Z) (w : World) :
  history (mem (addAll (calls ++ [c]) w))
    = stored c :: firstn 4 (history (mem (addAll calls w))).
Proof.
  unfold Store.addAll. rewrite fold_left_app. cbn [fold_left].
  destruct c as [[item uuid] now]. apply addToHistory_history.
Qed.

(** After at least one call the history is the five newest of: the items
    added, newest first, then the items that were there before. *)
Lemma addAll_history (calls : list (HistoryInput * jsstring * Z)) (w : World) :
  calls <> [] ->
  history (mem (addAll calls w))
    = firstn 5 (map stored (rev calls) ++ history (mem w)).
Proof.
  induction calls as [|c calls IH] using rev_ind; [congruence|]. intros _.
  rewrite addAll_snoc, rev_app_distr.
  destruct calls as [|c0 calls0]; [reflexivity|].
  rewrite IH by discriminate. rewrite firstn_firstn.
  set (older := rev (c0 :: calls0)). reflexivity.
Qed.

Lemma partialize_imageUrl (st : WorkflowState) :
  Forall (fun h => imageUrl h = None) (p_history (partialize st)).
Proof.
  unfold partialize. cbn [p_history]. apply Forall_forall.
  intros h Hh. apply in_map_iff in Hh as (h0 & <- & _). reflexivity.
Qed.

Lemma Forall_firstn {A} (P : A -> Prop) (n : nat) (l : list A) :
  Forall P l -> Forall P (firstn n l).
Proof.
  intros H. rewrite <- (firstn_skipn n l) in H.
  now apply Forall_app in H.
Qed.

(** A history whose items all have a null [imageUrl] stays so under
    [addToHistory]. *)
Lemma addAll_imageUrl (calls : list (HistoryInput * jsstring * Z)) (w : World) :
  Forall (fun it => imageUrl it = None) (history (mem w)) ->
  Forall (fun it => imageUrl it = None) (history (mem (addAll calls w))).
Proof.
  intros Hw. induction calls as [|c calls IH] using rev_ind; [exact Hw|].
  rewrite addAll_snoc. constructor; [apply stored_imageUrl|].
  now apply Forall_firstn.
Qed.

(** C4. After more than five [addToHistory] calls, from any state, the
    history holds five items: those of the five latest calls, the newest
    first. Each call puts its item in front of the four newest items that
    were there. Every item a call stores has a null [imageUrl], whatever
    image was passed in, so a history without images stays without them;
    and every item of the history that is written to storage has a null
    [imageUrl]. *)
Theorem C4_history_keeps_the_five_newest :
  (forall (w : World) (calls : list (HistoryInput * jsstring * Z)),
      (5 < List.length calls)%nat ->
      let h := history (mem (addAll calls w)) in
      List.length h = 5%nat
      /\ h = map stored (firstn 5 (rev calls))
      /\ Forall (fun it => imageUrl it = None) h)
  /\ (forall (w : World) (item : HistoryInput) (uuid : jsstring) (now : Z),
        history (mem (after (addToHistory item uuid now) w))
          = newItem item uuid now :: firstn 4 (history (mem w))
        /\ imageUrl (newItem item uuid now) = None)
  /\ (forall (w : World) (calls : list (HistoryInput * jsstring * Z)),
        Forall (fun it => imageUrl it = None) (history (mem w)) ->
        Forall (fun it => imageUrl it = None)
          (history (mem (addAll calls w))))
  /\ (forall st : WorkflowState,
        Forall (fun it => imageUrl it = None) (p_history (partialize st))).
Proof.
  split; [|split; [|split; [exact (fun w calls => addAll_imageUrl calls w)|]]].
  - intros w calls Hlen. cbv zeta.
    assert (Hh : history (mem (addAll calls w))
                 = map stored (firstn 5 (rev calls))).
    { rewrite addAll_history by (destruct calls; [simpl in Hlen; lia|discriminate]).
      rewrite firstn_app, length_map, length_rev.
      replace (5 - List.length calls)%nat with O by lia.
      rewrite firstn_O, app_nil_r. apply firstn_map. }
    rewrite Hh. repeat split.
    + rewrite length_map, length_firstn, length_rev. lia.
    + apply Forall_forall. intros h Hin.
      apply in_map_iff in Hin as (c & <- & _). apply stored_imageUrl.
  - intros w item uuid now. split; [apply addToHistory_history|reflexivity].
  - apply partialize_imageUrl.
Qed.

Lemma str_eqb_eq (a b : jsstring) : str_eqb a b = true <-> a = b.
Proof. unfold str_eqb. destruct (str_eq_dec a b); split; congruence. Qed.

Lemma find_by_id (i : jsstring) (l : list HistoryItem) (item : HistoryItem) :
  In item l -> id item = i ->
  exists found,
    find (fun h => str_eqb (id h) i) l = Some found
    /\ In found l /\ id found = i.
Proof.
  intros Hin Hid.
  destruct (find (fun h => str_eqb (id h) i) l) as [found|] eqn:E.
  - exists found. apply find_some in E as [Hf Heq].
    apply str_eqb_eq in Heq. auto.
  - apply (find_none _ _ E) in Hin. apply str_eqb_eq in Hid. congruence.
Qed.

Lemma unique_id (l : list HistoryItem) (a b : HistoryItem) :
  NoDup (map id l) -> In a l -> In b l -> id a = id b -> a = b.
Proof.
  induction l as [|x l IH]; intros Hnd Ha Hb Hid; [contradiction|].
  cbn [map] in Hnd. apply NoDup_cons_iff in Hnd as [Hx Hnd].
  destruct Ha as [<-|Ha], Hb as [<-|Hb]; auto.
  - exfalso. apply Hx. rewrite Hid. now apply in_map.
  - exfalso. apply Hx. rewrite <- Hid. now apply in_map.
Qed.

(** C8. When the history holds an item with the given id,
    [loadFromHistory] puts the schema of the item found under that id
    (the first one with it; the item itself when ids are not repeated)
    into [generatedSchema] and sets [generatedImage] to null, whatever
    it was. *)
Theorem C8_loadFromHistory_restores_schema_and_clears_image :
  forall (w : World) (i : jsstring) (item : HistoryItem),
    In item (history (mem w)) ->
    id item = i ->
    exists found,
      find (fun h => str_eqb (id h) i) (history (mem w)) = Some found
      /\ In found (history (mem w))
      /\ id found = i
      /\ generatedSchema (mem (after (loadFromHistory i) w)) = schema found
      /\ generatedImage (mem (after (loadFromHistory i) w)) = None
      /\ (NoDup (map id (history (mem w))) -> found = item).
Proof.
  intros w i item Hin Hid.
  destruct (find_by_id i _ item Hin Hid) as (found & Hfind & Hf & Hfid).
  exists found. repeat split; try assumption.
  - unfold Store.loadFromHistory. rewrite after_bind_get, Hfind, set_mem.
    destruct (mem w); reflexivity.
  - unfold Store.loadFromHistory. rewrite after_bind_get, Hfind, set_mem.
    destruct (mem w); reflexivity.
  - intros Hnd. apply (unique_id _ _ _ Hnd Hf Hin). congruence.
Qed.

(** C9. [resetProject] empties the paper content and the schema, sets the
    image to null, empties the reference images and goes back to step 1;
    the two model configs and the history stay as they were (and so do
    the language, the storage warning and the hydration flag). *)
Theorem C9_resetProject_clears_the_working_document :
  forall w : World,
    let st := mem w in
    let st' := mem (after resetProject w) in
    paperContent st' = lit ""
    /\ generatedSchema st' = lit ""
    /\ generatedImage st' = None
    /\ referenceImages st' = []
    /\ currentStep st' = Step1
    /\ logicConfig st' = logicConfig st
    /\ visionConfig st' = visionConfig st
    /\ history st' = history st
    /\ language st' = language st
    /\ storageWarning st' = storageWarning st
    /\ _hasHydrated st' = _hasHydrated st.
Proof.
  intros w. cbv zeta. unfold Store.resetProject. rewrite set_mem.
  destruct (mem w). repeat split.
Qed.

(** C10. [loadFromHistory] changes at most [generatedSchema] and
    [generatedImage]: the history, the step, the paper content, the
    reference images, both configs, the language and the storage warning
    are as before; and when no item has the id, nothing changes at all
    and nothing is written. *)
Theorem C10_loadFromHistory_changes_schema_and_image_only :
  forall (w : World) (i : jsstring),
    let st := mem w in
    let st' := mem (after (loadFromHistory i) w) in
    (history st' = history st
     /\ currentStep st' = currentStep st
     /\ paperContent st' = paperContent st
     /\ referenceImages st' = referenceImages st
     /\ logicConfig st' = logicConfig st
     /\ visionConfig st' = visionConfig st
     /\ language st' = language st
     /\ storageWarning st' = storageWarning st
     /\ _hasHydrated st' = _hasHydrated st)
    /\ ((forall h, In h (history st) -> id h <> i) ->
        loadFromHistory i w = (Normal tt, w)).
Proof.
  intros w i. cbv zeta. split.
  - unfold Store.loadFromHistory. rewrite after_bind_get.
    destruct (find _ (history (mem w))) as [item|].
    + rewrite set_mem. destruct (mem w). repeat split.
    + repeat split.
  - intros Hno. unfold Store.loadFromHistory, bind, get.
    destruct (find (fun h => str_eqb (id h) i) (history (mem w)))
      as [item|] eqn:E; [exfalso|reflexivity].
    apply find_some in E as [Hin Heq]. apply str_eqb_eq in Heq.
    exact (Hno item Hin Heq).
Qed.

End StoreFacts.

(** ** The store on a storage that is full *)

Section FullStorage.

Import Store.

Local Abbreviation setItem := (Bounded.setItem Bounded.quota).
Local Abbreviation stringify := Bounded.stringify.

(** C4 on six calls, each of which finds the storage full. *)
Lemma C4_six_calls_witness :
  (5 < List.length Bounded.sample_calls)%nat
  /\ map id (history (mem (addAll setItem stringify Bounded.sample_calls
                             Bounded.sample_world)))
     = [lit "6"; lit "5"; lit "4"; lit "3"; lit "2"].
Proof.
  split; [vm_compute; lia|].
  destruct (proj1 (C4_history_keeps_the_five_newest
                     Bounded.Storage setItem stringify)
              Bounded.sample_world Bounded.sample_calls
              ltac:(vm_compute; lia)) as (_ & Hh & _).
  cbv zeta in Hh. rewrite Hh. reflexivity.
Defined.

(** C5. On a storage that is full, [addToHistory] does throw to its
    caller: the write of the first [set] fails with the quota error, the
    handler sets the warning through [set], which writes again, and that
    second quota error leaves [addToHistory]. The new item is in the
    history in memory and [storageWarning] is true. *)
Theorem C5_quota_error_leaves_addToHistory :
  let item :=
    {| input_schema := lit "[DIAGRAM TITLE] Pipeline";
       input_imageUrl := Some (lit "data:image/png;base64,AAAA") |} in
  let call := addToHistory setItem stringify item (lit "7") 1700000000000%Z in
  let w := Bounded.sample_world in
  completion call w = Throw QuotaExceededError
  /\ map id (history (mem (after call w))) = [lit "7"; lit "a"; lit "b"]
  /\ storageWarning (mem (after call w)) = true
  /\ disk (after call w) = disk w.
Proof. vm_compute. repeat split. Qed.

(** C8 on the second item of the sample history. *)
Lemma C8_second_item_witness :
  let item := Bounded.sample_item (lit "b") in
  let w' := after (loadFromHistory setItem stringify (lit "b"))
              Bounded.sample_world in
  In item (history (mem Bounded.sample_world))
  /\ id item = lit "b"
  /\ generatedImage (mem Bounded.sample_world)
     = Some (lit "data:image/png;base64,AAAA")
  /\ generatedSchema (mem w') = schema item
  /\ generatedImage (mem w') = None.
Proof.
  cbv zeta.
  assert (Hin : In (Bounded.sample_item (lit "b"))
                  (history (mem Bounded.sample_world)))
    by (right; left; reflexivity).
  destruct (C8_loadFromHistory_restores_schema_and_clears_image
              Bounded.Storage setItem stringify Bounded.sample_world
              (lit "b") (Bounded.sample_item (lit "b")) Hin eq_refl)
    as (found & _ & _ & _ & Hschema & Himage & Hsame).
  assert (Hnd : NoDup (map id (history (mem Bounded.sample_world)))).
  { repeat constructor; simpl; intuition discriminate. }
  specialize (Hsame Hnd). subst found.
  repeat split; try assumption; reflexivity.
Defined.

(** C10 on an id that the sample history does not hold. *)
Lemma C10_unknown_id_witness :
  (forall h, In h (history (mem Bounded.sample_world)) -> id h <> lit "c")
  /\ loadFromHistory setItem stringify (lit "c") Bounded.sample_world
     = (Normal tt, Bounded.sample_world).
Proof.
  assert (Hno : forall h, In h (history (mem Bounded.sample_world)) ->
                          id h <> lit "c").
  { intros h [<-|[<-|[]]]; discriminate. }
  split; [exact Hno|].
  exact (proj2 (C10_loadFromHistory_changes_schema_and_image_only
                  Bounded.Storage setItem stringify Bounded.sample_world
                  (lit "c")) Hno).
Defined.

End FullStorage.

(** * Further properties *)

(** ** The gateway's results and prompts *)

Section GatewayMore.

Import RegExp Api.

Lemma base64_text_has_no_data_url (s : jsstring) :
  Forall (fun c => isBase64OrSpace c = true) s -> ~ contains_data_url s.
Proof.
  intros Hall (pre & m & post & -> & sub & pay & -> & _).
  apply Forall_app in Hall as [_ Hall].
  apply Forall_app in Hall as [Hall _].
  apply Forall_app in Hall as [Hall _].
  rewrite Forall_forall in Hall.
  specialize (Hall 58 ltac:(vm_compute; tauto)). discriminate.
Qed.

Lemma dropWhile_suffix (p : N -> bool) (s : jsstring) :
  exists l, s = l ++ dropWhile p s /\ Forall (fun c => p c = true) l.
Proof.
  exists (takeWhile p s). split;
    [apply takeWhile_dropWhile|apply takeWhile_Forall].
Qed.

Lemma dropWhile_head (p : N -> bool) (s : jsstring) (c : N) (rest : jsstring) :
  dropWhile p s = c :: rest -> p c = false.
Proof.
  induction s as [|a s IH]; simpl; [discriminate|].
  destruct (p a) eqn:E; [exact IH|]. now intros [= <- _].
Qed.

(** [trim] removes white space at the two ends and nothing else. *)
Lemma trim_spec (s : jsstring) :
  exists l r,
    s = l ++ trim s ++ r
    /\ Forall (fun c => isWhiteSpace c = true) l
    /\ Forall (fun c => isWhiteSpace c = true) r
    /\ (forall c rest, trim s = c :: rest -> isWhiteSpace c = false)
    /\ (forall c rest, trim s = rest ++ [c] -> isWhiteSpace c = false).
Proof.
  unfold trim, trimEnd, trimStart.
  destruct (dropWhile_suffix isWhiteSpace s) as (l & Hl & Hlws).
  set (s1 := dropWhile isWhiteSpace s) in *.
  destruct (dropWhile_suffix isWhiteSpace (rev s1)) as (r' & Hr & Hrws).
  set (s2 := dropWhile isWhiteSpace (rev s1)) in *.
  assert (Hs1 : s1 = rev s2 ++ rev r').
  { rewrite <- rev_app_distr, <- Hr. now rewrite rev_involutive. }
  exists l, (rev r'). repeat split.
  - now rewrite <- Hs1.
  - exact Hlws.
  - now apply Forall_rev.
  - intros c rest Hhead.
    destruct s1 as [|a s1'] eqn:E1.
    + destruct s2; [discriminate|]. apply (f_equal (@List.length N)) in Hs1.
      rewrite length_app, !length_rev in Hs1. simpl in Hs1. lia.
    + assert (a = c).
      { rewrite Hhead in Hs1. now injection Hs1. }
      subst a. now apply (dropWhile_head isWhiteSpace s c s1').
  - intros c rest Hlast.
    apply (f_equal (@rev N)) in Hlast.
    rewrite rev_involutive, rev_app_distr in Hlast. simpl in Hlast.
    now apply (dropWhile_head isWhiteSpace (rev s1) c (rev rest)).
Qed.

Lemma trim_white (s : jsstring) :
  Forall (fun c => isWhiteSpace c = true) s -> trim s = [].
Proof.
  intros H. unfold trim, trimEnd, trimStart.
  destruct (takeWhile_app isWhiteSpace s [] H) as [_ E].
  rewrite app_nil_r in E. rewrite E. reflexivity.
Qed.

(** X1. Whatever the response text, [renderImage] answers either with an
    image URL and no text, or with a null image and the response text
    itself: never both, never neither. *)
Theorem extractImage_one_of_image_or_text :
  forall resultContent : jsstring,
    (exists url,
        extractImage resultContent = {| imageUrl := Some url; text := None |})
    \/ extractImage resultContent
       = {| imageUrl := None; text := Some resultContent |}.
Proof.
  intros s. unfold extractImage.
  destruct (truthy s); [|now right].
  destruct (match0 base64Pattern s) as [m|]; [left; now exists m|].
  destruct (Nat.ltb 1000 (List.length s) && test rawBase64Pattern s);
    [left; eexists; reflexivity|now right].
Qed.

(** X2. An image URL that [renderImage] answers with always starts with
    [data:image/]. *)
Theorem extractImage_imageUrl_is_a_data_url :
  forall resultContent url : jsstring,
    imageUrl (extractImage resultContent) = Some url ->
    starts_with (lit "data:image/") url = true.
Proof.
  intros s url. unfold extractImage.
  destruct (truthy s); [|discriminate].
  destruct (match0 base64Pattern s) as [m|] eqn:E.
  - cbn [imageUrl]. intros Hu.
    assert (Hm : m = url) by congruence. subst m.
    apply match0_base64Pattern_Some in E
      as (_ & _ & _ & (sub & pay & -> & _) & _).
    apply starts_with_app.
  - destruct (Nat.ltb 1000 (List.length s) && test rawBase64Pattern s);
      [|discriminate].
    cbn [imageUrl]. intros Hu.
    assert (Hm : lit "data:image/png;base64," ++ trim s = url) by congruence.
    subst url. reflexivity.
Qed.

Lemma extractImage_imageUrl_witness :
  imageUrl (extractImage (lit "see data:image/png;base64,AAAA."))
    = Some (lit "data:image/png;base64,AAAA")
  /\ starts_with (lit "data:image/") (lit "data:image/png;base64,AAAA") = true.
Proof.
  assert (H : imageUrl (extractImage (lit "see data:image/png;base64,AAAA."))
              = Some (lit "data:image/png;base64,AAAA"))
    by (vm_compute; reflexivity).
  split; [exact H|].
  exact (extractImage_imageUrl_is_a_data_url _ _ H).
Defined.

(** X3. A response text of more than 1000 characters, all of them base64
    characters or white space, always becomes a PNG data URL: such a text
    cannot hold an embedded data URL. The payload is the text without the
    white space at its two ends; white space inside it is kept. *)
Theorem long_base64_text_becomes_a_png_url :
  forall resultContent : jsstring,
    (1000 < List.length resultContent)%nat ->
    Forall (fun c => isBase64OrSpace c = true) resultContent ->
    exists l payload r,
      resultContent = l ++ payload ++ r
      /\ Forall (fun c => isWhiteSpace c = true) l
      /\ Forall (fun c => isWhiteSpace c = true) r
      /\ (forall c rest, payload = c :: rest -> isWhiteSpace c = false)
      /\ (forall c rest, payload = rest ++ [c] -> isWhiteSpace c = false)
      /\ extractImage resultContent
         = {| imageUrl := Some (lit "data:image/png;base64," ++ payload);
              text := None |}.
Proof.
  intros s Hlen Hall.
  destruct (trim_spec s) as (l & r & Hs & Hl & Hr & Hhead & Hlast).
  exists l, (trim s), r. repeat split; try assumption.
  pose proof (base64_text_has_no_data_url s Hall) as Hno.
  apply match0_base64Pattern_None in Hno.
  rewrite (extractImage_no_embedded s Hno).
  assert (Ht : test rawBase64Pattern s = true).
  { apply test_rawBase64Pattern. split; [|exact Hall].
    destruct s; [simpl in Hlen; lia|discriminate]. }
  rewrite Ht. apply Nat.ltb_lt in Hlen. now rewrite Hlen.
Qed.

Lemma long_base64_text_witness :
  let s : jsstring :=
    [32] ++ repeat 65 600 ++ [10] ++ repeat 66 600 ++ [10] in
  (1000 < List.length s)%nat
  /\ Forall (fun c => isBase64OrSpace c = true) s
  /\ exists l payload r,
       s = l ++ payload ++ r
       /\ extractImage s
          = {| imageUrl := Some (lit "data:image/png;base64," ++ payload);
               text := None |}.
Proof.
  cbv zeta.
  assert (Hlen : Nat.lt 1000%nat
                   (@List.length N
                      ([32] ++ repeat 65 600 ++ [10] ++ repeat 66 600 ++ [10])))
    by (vm_compute; lia).
  assert (Hall : Forall (fun c => isBase64OrSpace c = true)
                   ([32] ++ repeat 65 600 ++ [10] ++ repeat 66 600 ++ [10])).
  { apply Forall_forall. apply forallb_forall. vm_compute. reflexivity. }
  repeat split; try assumption.
  destruct (long_base64_text_becomes_a_png_url _ Hlen Hall)
    as (l & payload & r & Hs & _ & _ & _ & _ & Hx).
  exists l, payload, r. split; [exact Hs|exact Hx].
Defined.

(** X4. A response text of more than 1000 white-space characters is taken
    for an image too: the answer is the PNG data-URL prefix with an empty
    payload. *)
Theorem long_blank_text_becomes_an_empty_png_url :
  forall resultContent : jsstring,
    (1000 < List.length resultContent)%nat ->
    Forall (fun c => isWhiteSpace c = true) resultContent ->
    extractImage resultContent
      = {| imageUrl := Some (lit "data:image/png;base64,"); text := None |}.
Proof.
  intros s Hlen Hws.
  assert (Hall : Forall (fun c => isBase64OrSpace c = true) s).
  { eapply Forall_impl; [|exact Hws]. intros c Hc.
    unfold isBase64OrSpace. rewrite Hc. apply orb_true_r. }
  pose proof (base64_text_has_no_data_url s Hall) as Hno.
  apply match0_base64Pattern_None in Hno.
  rewrite (extractImage_no_embedded s Hno).
  assert (Ht : test rawBase64Pattern s = true).
  { apply test_rawBase64Pattern. split; [|exact Hall].
    destruct s; [simpl in Hlen; lia|discriminate]. }
  rewrite Ht. apply Nat.ltb_lt in Hlen. rewrite Hlen.
  cbn [andb]. now rewrite (trim_white s Hws), app_nil_r.
Qed.

Lemma long_blank_text_witness :
  Nat.lt 1000%nat (@List.length N (repeat 32 1001))
  /\ Forall (fun c => isWhiteSpace c = true) (repeat 32 1001)
  /\ extractImage (repeat 32 1001)
     = {| imageUrl := Some (lit "data:image/png;base64,"); text := None |}.
Proof.
  assert (Hlen : Nat.lt 1000%nat (@List.length N (repeat 32 1001)))
    by (rewrite repeat_length; lia).
  assert (Hws : Forall (fun c => isWhiteSpace c = true) (repeat 32 1001)).
  { apply Forall_forall. intros c Hc. apply repeat_spec in Hc. now subst c. }
  split; [exact Hlen|split; [exact Hws|]].
  exact (long_blank_text_becomes_an_empty_png_url _ Hlen Hws).
Defined.

End GatewayMore.

Section PromptsMore.

Import Api.

Lemma GetSubstitution_no_pattern (m pre post v : jsstring) :
  has_replacement_pattern v = false -> GetSubstitution m pre post v = v.
Proof.
  induction v as [|c v IH]; [reflexivity|].
  cbn [has_replacement_pattern]. intros H.
  apply orb_false_iff in H as [Hhead Hrest]. specialize (IH Hrest).
  cbn [GetSubstitution]. destruct (c =? DOLLAR) eqn:Ec.
  - destruct v as [|d v]; [reflexivity|].
    cbn [andb] in Hhead.
    apply orb_false_iff in Hhead as [Hhead Ha].
    apply orb_false_iff in Hhead as [Hhead Hb].
    apply orb_false_iff in Hhead as [Hd Hm].
    rewrite Hd, Hm, Hb, Ha. now rewrite IH.
  - now rewrite IH.
Qed.

(** X5. Whatever the value substituted, a prompt is the text of its
    template before the placeholder, then some text in the placeholder's
    place, then the text of the template after the placeholder; the two
    section markers of the architect template are always in the prompt. *)
Theorem prompts_keep_the_template_around_the_placeholder :
  forall (v img : jsstring) (refs : list jsstring),
    (exists x,
        generateSchema_prompt v
        = firstn 396 ARCHITECT_PROMPT_TEMPLATE ++ x
            ++ skipn (396 + 15) ARCHITECT_PROMPT_TEMPLATE)
    /\ (exists x,
        renderImage_prompt v None
        = firstn 165 RENDERER_PROMPT_TEMPLATE ++ x
            ++ skipn (165 + 23) RENDERER_PROMPT_TEMPLATE)
    /\ (exists x,
        renderImage_prompt v (Some (img :: refs))
        = firstn 188 RENDERER_WITH_REFERENCES_TEMPLATE ++ x
            ++ skipn (188 + 23) RENDERER_WITH_REFERENCES_TEMPLATE)
    /\ includes (lit "---BEGIN PROMPT---") (generateSchema_prompt v) = true
    /\ includes (lit "---END PROMPT---") (generateSchema_prompt v) = true.
Proof.
  intros v img refs. split; [|split; [|split]].
  - eexists. exact (replace_found _ _ v _ ARCHITECT_placeholder).
  - eexists. exact (replace_found _ _ v _ RENDERER_placeholder).
  - eexists. exact (replace_found _ _ v _ RENDERER_WITH_REFERENCES_placeholder).
  - apply markers_kept.
Qed.

(** X6. For a value that holds none of [$$], [$&], [$`], [$'], each prompt
    is its template with the placeholder replaced by the value as it
    is. *)
Theorem value_without_dollar_patterns_is_inserted_verbatim :
  forall (v img : jsstring) (refs : list jsstring),
    has_replacement_pattern v = false ->
    generateSchema_prompt v
      = firstn 396 ARCHITECT_PROMPT_TEMPLATE ++ v
          ++ skipn (396 + 15) ARCHITECT_PROMPT_TEMPLATE
    /\ renderImage_prompt v None
      = firstn 165 RENDERER_PROMPT_TEMPLATE ++ v
          ++ skipn (165 + 23) RENDERER_PROMPT_TEMPLATE
    /\ renderImage_prompt v (Some (img :: refs))
      = firstn 188 RENDERER_WITH_REFERENCES_TEMPLATE ++ v
          ++ skipn (188 + 23) RENDERER_WITH_REFERENCES_TEMPLATE.
Proof.
  intros v img refs Hv.
  pose proof (replace_found _ _ v _ ARCHITECT_placeholder) as Ha.
  pose proof (replace_found _ _ v _ RENDERER_placeholder) as Hr.
  pose proof (replace_found _ _ v _ RENDERER_WITH_REFERENCES_placeholder)
    as Hw.
  rewrite GetSubstitution_no_pattern in Ha, Hr, Hw by exact Hv.
  repeat split; assumption.
Qed.

Lemma value_without_dollar_patterns_witness :
  has_replacement_pattern (lit "Budget: $5 and {paper_content}") = false
  /\ generateSchema_prompt (lit "Budget: $5 and {paper_content}")
     = firstn 396 ARCHITECT_PROMPT_TEMPLATE
         ++ lit "Budget: $5 and {paper_content}"
         ++ skipn (396 + 15) ARCHITECT_PROMPT_TEMPLATE.
Proof.
  split; [reflexivity|].
  exact (proj1 (value_without_dollar_patterns_is_inserted_verbatim
                  (lit "Budget: $5 and {paper_content}") (lit "") []
                  eq_refl)).
Defined.

End PromptsMore.

(** ** The store's actions *)

Section StoreMore.

Import Store.

Variable Storage : Type.
Variable localStorage_setItem : jsstring -> jsstring -> Storage -> Exn + Storage.
Variable JSON_stringify : StorageValue -> jsstring.

Local Abbreviation World := (World Storage).
Local Abbreviation set_with := (set_with localStorage_setItem JSON_stringify).
Local Abbreviation set := (set localStorage_setItem JSON_stringify).
Local Abbreviation perform := (perform localStorage_setItem JSON_stringify).
Local Abbreviation addToHistory :=
  (addToHistory localStorage_setItem JSON_stringify).
Local Abbreviation loadFromHistory :=
  (loadFromHistory localStorage_setItem JSON_stringify).
Local Abbreviation deleteFromHistory :=
  (deleteFromHistory localStorage_setItem JSON_stringify).
Local Abbreviation addReferenceImage :=
  (addReferenceImage localStorage_setItem JSON_stringify).
Local Abbreviation removeReferenceImage :=
  (removeReferenceImage localStorage_setItem JSON_stringify).
Local Abbreviation write st d :=
  (localStorage_setItem storage_name
     (JSON_stringify {| sv_state := partialize st; sv_version := 0 |}) d).

Local Abbreviation set_mem :=
  (set_mem Storage localStorage_setItem JSON_stringify).
Local Abbreviation set_with_mem :=
  (set_with_mem Storage localStorage_setItem JSON_stringify).
Local Abbreviation set_with_cases :=
  (set_with_cases Storage localStorage_setItem JSON_stringify).

(** The state in memory after an action, for the actions that are one
    [set]. *)
Ltac one_set :=
  unfold Store.perform, setLogicConfig, setVisionConfig, setLanguage,
    setCurrentStep, setPaperContent, setGeneratedSchema, setGeneratedImage,
    Store.addReferenceImage, Store.removeReferenceImage,
    clearReferenceImages, Store.deleteFromHistory, clearHistory,
    resetProject, setHasHydrated, setStorageWarning;
  rewrite ?set_mem, ?set_with_mem.

Lemma history_after (a : Action) (w : World) :
  history (mem (after (perform a) w)) =
    match a with
    | AddToHistory item uuid now =>
        newItem item uuid now :: firstn 4 (history (mem w))
    | DeleteFromHistory i =>
        filter (fun h => negb (str_eqb (id h) i)) (history (mem w))
    | ClearHistory => []
    | _ => history (mem w)
    end.
Proof.
  destruct a; try (one_set; destruct (mem w); reflexivity).
  - apply addToHistory_history.
  - unfold Store.perform, Store.loadFromHistory. rewrite after_bind_get.
    destruct (find _ (history (mem w))); [|reflexivity].
    rewrite set_mem. destruct (mem w); reflexivity.
Qed.

Lemma history_bounded_step (a : Action) (w : World) :
  (List.length (history (mem w)) <= 5)%nat ->
  (List.length (history (mem (after (perform a) w))) <= 5)%nat.
Proof.
  intros H. rewrite history_after. destruct a; try exact H.
  - cbn [List.length]. rewrite length_firstn. lia.
  - etransitivity; [apply filter_length_le|exact H].
  - simpl. lia.
Qed.

Lemma history_without_images_step (a : Action) (w : World) :
  Forall (fun it => imageUrl it = None) (history (mem w)) ->
  Forall (fun it => imageUrl it = None) (history (mem (after (perform a) w))).
Proof.
  intros H. rewrite history_after. destruct a; try exact H.
  - constructor; [reflexivity|]. now apply Forall_firstn.
  - apply Forall_forall. intros h Hh. apply filter_In in Hh as [Hh _].
    rewrite Forall_forall in H. now apply H.
  - constructor.
Qed.

(** X7. The actions keep a history of at most five items without images
    that way: from any state with such a history (the initial state, or a
    state restored from the storage that has one), any sequence of
    actions, on any storage and whichever writes fail, ends in a state
    with such a history. And from any state at all, an [addToHistory]
    leaves at most five items. *)
Theorem history_stays_bounded_and_without_images :
  (forall (actions : list Action) (w : World),
      (List.length (history (mem w)) <= 5)%nat ->
      Forall (fun it => imageUrl it = None) (history (mem w)) ->
      let w' := fold_left (fun w0 a => after (perform a) w0) actions w in
      (List.length (history (mem w')) <= 5)%nat
      /\ Forall (fun it => imageUrl it = None) (history (mem w')))
  /\ (forall (w : World) (item : HistoryInput) (uuid : jsstring) (now : Z),
        (List.length
           (history (mem (after (perform (AddToHistory item uuid now)) w)))
         <= 5)%nat).
Proof.
  split.
  - intros actions w Hlen Himg. cbv zeta.
    induction actions as [|a actions IH] using rev_ind.
    + split; assumption.
    + rewrite fold_left_app. cbn [fold_left]. destruct IH as [IH1 IH2].
      split; [now apply history_bounded_step
             |now apply history_without_images_step].
  - intros w item uuid now. rewrite history_after.
    cbn [List.length]. rewrite length_firstn. lia.
Qed.

Lemma loadFromHistory_absent (i : jsstring) (w : World) :
  (forall h, In h (history (mem w)) -> id h <> i) ->
  loadFromHistory i w = (Normal tt, w).
Proof.
  intros Hno. unfold Store.loadFromHistory, bind, get.
  destruct (find (fun h => str_eqb (id h) i) (history (mem w)))
    as [item|] eqn:E; [exfalso|reflexivity].
  apply find_some in E as [Hin Heq]. apply str_eqb_eq in Heq.
  exact (Hno item Hin Heq).
Qed.

(** X8. An item that [addToHistory] has just stored is found again by its
    id: [loadFromHistory] with that id puts the item's schema into
    [generatedSchema] and leaves the history as it is, whether or not the
    writes went through. *)
Theorem load_after_add_restores_the_schema :
  forall (w : World) (item : HistoryInput) (uuid : jsstring) (now : Z),
    let w1 := after (addToHistory item uuid now) w in
    let w2 := after (loadFromHistory uuid) w1 in
    generatedSchema (mem w2) = input_schema item
    /\ generatedImage (mem w2) = None
    /\ history (mem w2) = history (mem w1).
Proof.
  intros w item uuid now. cbv zeta.
  pose proof (addToHistory_history Storage localStorage_setItem
                JSON_stringify item uuid now w) as Hh.
  set (w1 := after (addToHistory item uuid now) w) in *.
  unfold Store.loadFromHistory. rewrite after_bind_get, Hh.
  cbn [find newItem id].
  assert (Heq : str_eqb uuid uuid = true) by now apply str_eqb_eq.
  rewrite Heq, set_mem. rewrite <- Hh.
  destruct (mem w1); repeat split.
Qed.

(** X9. [deleteFromHistory] removes every item with the given id and
    keeps the others; a [loadFromHistory] with that id afterwards changes
    nothing and writes nothing. When no item has the id, the history is
    as before. *)
Theorem delete_removes_the_id_for_good :
  forall (w : World) (i : jsstring),
    let w1 := after (deleteFromHistory i) w in
    (forall h, In h (history (mem w1))
               <-> In h (history (mem w)) /\ id h <> i)
    /\ loadFromHistory i w1 = (Normal tt, w1)
    /\ ((forall h, In h (history (mem w)) -> id h <> i) ->
        history (mem w1) = history (mem w)).
Proof.
  intros w i. cbv zeta.
  assert (Hh : history (mem (after (deleteFromHistory i) w))
               = filter (fun h => negb (str_eqb (id h) i)) (history (mem w))).
  { exact (history_after (DeleteFromHistory i) w). }
  set (w1 := after (deleteFromHistory i) w) in *.
  assert (Hin : forall h, In h (history (mem w1))
                          <-> In h (history (mem w)) /\ id h <> i).
  { intros h. rewrite Hh, filter_In, negb_true_iff.
    split; intros [H1 H2]; split; try assumption.
    - intros Heq. apply str_eqb_eq in Heq. congruence.
    - destruct (str_eqb (id h) i) eqn:E; [|reflexivity].
      apply str_eqb_eq in E. contradiction. }
  split; [exact Hin|split].
  - apply loadFromHistory_absent.
    intros h Hh1. now apply Hin in Hh1.
  - intros Hno. rewrite Hh. apply forallb_filter_id.
    apply forallb_forall. intros h Hh1. apply negb_true_iff.
    destruct (str_eqb (id h) i) eqn:E; [|reflexivity].
    apply str_eqb_eq in E. now apply Hno in Hh1.
Qed.

(** X10. The thumbnail of a history item is absent exactly for a null or
    empty image; otherwise it is the first 100 characters of the image
    followed by three dots, at most 103 characters, which for an image of
    at most 100 characters is the whole image. *)
Theorem thumbnail_is_the_head_of_the_image :
  forall image : option jsstring,
    match createThumbnail image with
    | None => image = None \/ image = Some []
    | Some thumb =>
        exists u,
          image = Some u /\ u <> []
          /\ thumb = firstn 100 u ++ lit "..."
          /\ (List.length thumb <= 103)%nat
          /\ ((List.length u <= 100)%nat -> thumb = u ++ lit "...")
    end.
Proof.
  intros [[|c u]|]; cbn [createThumbnail truthy]; auto.
  exists (c :: u). unfold substring_to. repeat split; try discriminate.
  - rewrite length_app, length_firstn. simpl List.length. lia.
  - intros Hlen. now rewrite firstn_all2.
Qed.

Lemma thumbnail_witness :
  (List.length (lit "https://x/y.png") <= 100)%nat
  /\ createThumbnail (Some (lit "https://x/y.png"))
     = Some (lit "https://x/y.png" ++ lit "...").
Proof.
  split; [vm_compute; lia|].
  pose proof (thumbnail_is_the_head_of_the_image
                (Some (lit "https://x/y.png"))) as H.
  destruct (createThumbnail (Some (lit "https://x/y.png"))) as [thumb|];
    [|destruct H; discriminate].
  destruct H as (u & Hu & _ & _ & _ & Hshort).
  injection Hu as <-. f_equal. apply Hshort. vm_compute. lia.
Defined.

Lemma set_with_outcome (partial : WorkflowState -> Partial) (w : World) :
  let st := Object_assign (mem w) (partial (mem w)) in
  (exists d, set_with partial w = (Normal tt, {| mem := st; disk := d |}))
  \/ (exists e,
         isQuota e = true
         /\ write st (disk w) = inl e
         /\ set_with partial w = (Throw e, {| mem := st; disk := disk w |})).
Proof.
  cbv zeta. rewrite set_with_cases. cbv zeta.
  destruct (localStorage_setItem _ _ (disk w)) as [e|d] eqn:E.
  - destruct (isQuota e) eqn:Eq.
    + right. now exists e.
    + left. now exists (disk w).
  - left. now exists d.
Qed.

Lemma set_with_throw (partial : WorkflowState -> Partial) (w : World)
    (e : Exn) :
  completion (set_with partial) w = Throw e ->
  isQuota e = true /\ disk (after (set_with partial) w) = disk w.
Proof.
  unfold completion, after.
  destruct (set_with_outcome partial w) as [(d & ->)|(e' & Hq & _ & ->)];
    cbn [fst snd disk]; [discriminate|].
  now intros [= <-].
Qed.

(** X11. An action throws nothing but a quota error of the storage, and
    when it throws, the storage holds what it held before. *)
Theorem actions_throw_only_quota_errors :
  forall (a : Action) (w : World) (e : Exn),
    completion (perform a) w = Throw e ->
    isQuota e = true /\ disk (after (perform a) w) = disk w.
Proof.
  intros a w e.
  destruct a; try (unfold Store.perform, setLogicConfig, setVisionConfig,
    setLanguage, setCurrentStep, setPaperContent, setGeneratedSchema,
    setGeneratedImage, Store.addReferenceImage, Store.removeReferenceImage,
    clearReferenceImages, Store.deleteFromHistory, clearHistory,
    resetProject, setHasHydrated, setStorageWarning, Store.set;
    apply set_with_throw).
  - unfold Store.perform, Store.addToHistory, completion, after, bind, get,
      try_catch, Store.set.
    destruct (set_with_outcome
                (fun _ => [f_history (newItem item uuid now
                                        :: firstn (MAX_HISTORY_ITEMS - 1)
                                             (history (mem w)));
                           f_storageWarning false]) w)
      as [(d & ->)|(e1 & Hq1 & _ & ->)]; [discriminate|].
    match goal with
    | |- context [Store.set_with _ _ ?p ?w1] =>
        destruct (set_with_outcome p w1) as [(d & ->)|(e2 & Hq2 & _ & ->)]
    end; cbn [fst snd disk]; [discriminate|].
    now intros [= <-].
  - unfold Store.perform, Store.loadFromHistory, completion, after, bind, get.
    destruct (find _ (history (mem w))); [|discriminate].
    apply set_with_throw.
Qed.

(** X12. The actions that change only what is not persisted (the step,
    the image, the reference images, the hydration flag, the storage
    warning) still write, and write the persisted state as it was: on a
    storage that refuses that state for its quota they throw the quota
    error, after making their change in memory. *)
Theorem transient_actions_rewrite_the_persisted_state :
  forall (a : Action) (w : World),
    transient a = true ->
    partialize (mem (after (perform a) w)) = partialize (mem w)
    /\ forall e,
         write (mem w) (disk w) = inl e -> isQuota e = true ->
         completion (perform a) w = Throw e.
Proof.
  intros a w Ha.
  assert (Hp : forall partial,
             perform a = set_with partial ->
             partialize (Object_assign (mem w) (partial (mem w)))
               = partialize (mem w) ->
             partialize (mem (after (perform a) w)) = partialize (mem w)
             /\ forall e,
                  write (mem w) (disk w) = inl e -> isQuota e = true ->
                  completion (perform a) w = Throw e).
  { intros partial -> Hsame. rewrite set_with_mem. split; [exact Hsame|].
    intros e Hw Hq. unfold completion. rewrite set_with_cases. cbv zeta.
    now rewrite Hsame, Hw, Hq. }
  destruct a; try discriminate Ha;
    (eapply Hp; [reflexivity|destruct (mem w); reflexivity]).
Qed.

(** X13. When the storage refuses the write of [addToHistory] for another
    reason than its quota, nothing tells: the call returns, the item is
    in the history in memory, [storageWarning] is false, and the storage
    holds what it held before. *)
Theorem addToHistory_loses_other_write_failures_silently :
  forall (w : World) (item : HistoryInput) (uuid : jsstring) (now : Z)
         (e : Exn),
    let st :=
      Object_assign (mem w)
        [f_history (newItem item uuid now :: firstn 4 (history (mem w)));
         f_storageWarning false] in
    write st (disk w) = inl e ->
    isQuota e = false ->
    addToHistory item uuid now w = (Normal tt, {| mem := st; disk := disk w |})
    /\ storageWarning st = false
    /\ history st = newItem item uuid now :: firstn 4 (history (mem w)).
Proof.
  intros w item uuid now e. cbv zeta. intros Hw Hq.
  split; [|destruct (mem w); split; reflexivity].
  unfold Store.addToHistory, bind, get, try_catch, Store.set.
  change (MAX_HISTORY_ITEMS - 1)%nat with 4%nat.
  rewrite set_with_cases. cbv zeta. now rewrite Hw, Hq.
Qed.

Lemma remove_index_keeps_later {A} (k index : nat) (l : list A) :
  (index < k)%nat ->
  map snd
    (filter (fun p => negb (Nat.eqb (fst p) index))
       (combine (seq k (List.length l)) l)) = l.
Proof.
  revert k; induction l as [|x l IH]; intros k Hk; [reflexivity|].
  cbn [List.length seq combine filter fst].
  destruct (Nat.eqb_spec k index) as [->|_]; [lia|].
  cbn [negb map snd]. f_equal. apply IH. lia.
Qed.

Lemma remove_index_from {A} (k index : nat) (l : list A) :
  map snd
    (filter (fun p => negb (Nat.eqb (fst p) (k + index)))
       (combine (seq k (List.length l)) l)) = remove_index index l.
Proof.
  revert k index; induction l as [|x l IH]; intros k index;
    [now destruct index|].
  cbn [List.length seq combine filter fst].
  destruct index as [|index].
  - rewrite Nat.add_0_r, Nat.eqb_refl. cbn [negb remove_index].
    apply remove_index_keeps_later. lia.
  - destruct (Nat.eqb_spec k (k + S index)) as [Heq|_]; [lia|].
    cbn [negb map snd remove_index]. f_equal.
    replace (k + S index)%nat with (S k + index)%nat by lia. apply IH.
Qed.

(** [remove_index] is the filter on the index that the source writes. *)
Lemma remove_index_filter {A} (index : nat) (l : list A) :
  remove_index index l
    = filter_indexed (fun i => negb (Nat.eqb i index)) l.
Proof. symmetry. exact (remove_index_from O index l). Qed.

Lemma remove_index_last {A} (l : list A) (x : A) :
  remove_index (List.length l) (l ++ [x]) = l.
Proof. induction l as [|a l IH]; simpl; [reflexivity|now f_equal]. Qed.

Lemma remove_index_beyond {A} (index : nat) (l : list A) :
  (List.length l <= index)%nat -> remove_index index l = l.
Proof.
  revert index; induction l as [|a l IH]; intros [|index] H;
    simpl in *; try reflexivity; try lia.
  f_equal. apply IH. lia.
Qed.

Lemma remove_index_length {A} (index : nat) (l : list A) :
  (index < List.length l)%nat ->
  List.length (remove_index index l) = (List.length l - 1)%nat.
Proof.
  revert index; induction l as [|a l IH]; intros [|index] H;
    simpl in *; try lia.
  rewrite IH by lia. lia.
Qed.

(** X14. [addReferenceImage] puts the image at the end of the list and
    [removeReferenceImage] takes out the image at the index: removing at
    the old length right after an addition gives the list back, an index
    at or beyond the length removes nothing, and an index inside the list
    shortens it by one. *)
Theorem reference_images_add_and_remove :
  forall (w : World) (image : jsstring) (index : nat),
    let refs := referenceImages (mem w) in
    let added := after (addReferenceImage image) w in
    let removed := after (removeReferenceImage index) w in
    referenceImages (mem added) = refs ++ [image]
    /\ referenceImages
         (mem (after (removeReferenceImage (List.length refs)) added)) = refs
    /\ referenceImages (mem removed)
       = filter_indexed (fun i => negb (Nat.eqb i index)) refs
    /\ ((List.length refs <= index)%nat -> referenceImages (mem removed) = refs)
    /\ ((index < List.length refs)%nat ->
        List.length (referenceImages (mem removed))
          = (List.length refs - 1)%nat).
Proof.
  intros w image index. cbv zeta.
  assert (Hadd : referenceImages (mem (after (addReferenceImage image) w))
                 = referenceImages (mem w) ++ [image]).
  { unfold Store.addReferenceImage. rewrite set_with_mem.
    destruct (mem w); reflexivity. }
  assert (Hrem : forall k w0,
             referenceImages (mem (after (removeReferenceImage k) w0))
             = remove_index k (referenceImages (mem w0))).
  { intros k w0. unfold Store.removeReferenceImage. rewrite set_with_mem.
    destruct (mem w0); reflexivity. }
  split; [exact Hadd|]. rewrite !Hrem, Hadd. repeat split.
  - apply remove_index_last.
  - apply remove_index_filter.
  - apply remove_index_beyond.
  - apply remove_index_length.
Qed.

End StoreMore.

Section StoreMoreOnInstances.

Import Store.

Local Abbreviation setItem := (Bounded.setItem Bounded.quota).
Local Abbreviation stringify := Bounded.stringify.

Lemma delete_unknown_id_witness :
  (forall h, In h (history (mem Bounded.sample_world)) -> id h <> lit "c")
  /\ history (mem (after (deleteFromHistory setItem stringify (lit "c"))
                     Bounded.sample_world))
     = history (mem Bounded.sample_world).
Proof.
  assert (Hno : forall h, In h (history (mem Bounded.sample_world)) ->
                          id h <> lit "c").
  { intros h [<-|[<-|[]]]; discriminate. }
  split; [exact Hno|].
  exact (proj2 (proj2 (delete_removes_the_id_for_good
                         Bounded.Storage setItem stringify
                         Bounded.sample_world (lit "c"))) Hno).
Defined.

Lemma history_stays_bounded_witness :
  let actions :=
    map (fun c => AddToHistory (fst (fst c)) (snd (fst c)) (snd c))
      Bounded.sample_calls
      ++ [DeleteFromHistory (lit "3"); SetStorageWarning false] in
  (List.length (history (mem Bounded.sample_world)) <= 5)%nat
  /\ Forall (fun it => imageUrl it = None)
       (history (mem Bounded.sample_world))
  /\ (List.length
        (history
           (mem (fold_left
                   (fun w0 a => after (perform setItem stringify a) w0)
                   actions Bounded.sample_world))) <= 5)%nat.
Proof.
  cbv zeta.
  assert (Hlen : (List.length (history (mem Bounded.sample_world)) <= 5)%nat)
    by (vm_compute; lia).
  assert (Himg : Forall (fun it => imageUrl it = None)
                   (history (mem Bounded.sample_world)))
    by (repeat constructor).
  split; [exact Hlen|split; [exact Himg|]].
  exact (proj1 (proj1 (history_stays_bounded_and_without_images
                         Bounded.Storage setItem stringify) _
                  Bounded.sample_world Hlen Himg)).
Defined.

Lemma actions_throw_only_quota_errors_witness :
  let a := AddToHistory {| input_schema := lit "[DIAGRAM TITLE]";
                           input_imageUrl := None |} (lit "7") 0%Z in
  completion (perform setItem stringify a) Bounded.sample_world
    = Throw QuotaExceededError
  /\ isQuota QuotaExceededError = true
  /\ disk (after (perform setItem stringify a) Bounded.sample_world)
     = disk Bounded.sample_world.
Proof.
  cbv zeta.
  assert (H : completion
                (perform setItem stringify
                   (AddToHistory {| input_schema := lit "[DIAGRAM TITLE]";
                                    input_imageUrl := None |} (lit "7") 0%Z))
                Bounded.sample_world = Throw QuotaExceededError)
    by (vm_compute; reflexivity).
  split; [exact H|].
  exact (actions_throw_only_quota_errors Bounded.Storage setItem stringify
           _ _ _ H).
Defined.

Lemma dismissing_the_warning_throws_witness :
  transient (SetStorageWarning false) = true
  /\ setItem storage_name
       (stringify {| sv_state := partialize (mem Bounded.sample_world);
                     sv_version := 0 |})
       (disk Bounded.sample_world) = inl QuotaExceededError
  /\ isQuota QuotaExceededError = true
  /\ completion (perform setItem stringify (SetStorageWarning false))
       Bounded.sample_world = Throw QuotaExceededError.
Proof.
  assert (Hw : setItem storage_name
                 (stringify {| sv_state := partialize (mem Bounded.sample_world);
                               sv_version := 0 |})
                 (disk Bounded.sample_world) = inl QuotaExceededError)
    by (vm_compute; reflexivity).
  split; [reflexivity|split; [exact Hw|split; [reflexivity|]]].
  exact (proj2 (transient_actions_rewrite_the_persisted_state
                  Bounded.Storage setItem stringify
                  (SetStorageWarning false) Bounded.sample_world eq_refl)
           QuotaExceededError Hw eq_refl).
Defined.

Lemma denied_write_is_silent_witness :
  let item := {| input_schema := lit "[DIAGRAM TITLE]";
                 input_imageUrl := None |} in
  isQuota Denied.SecurityError = false
  /\ completion (addToHistory Denied.setItem stringify item (lit "7") 0%Z)
       Bounded.sample_world = Normal tt
  /\ storageWarning
       (mem (after (addToHistory Denied.setItem stringify item (lit "7") 0%Z)
               Bounded.sample_world)) = false.
Proof.
  cbv zeta.
  destruct (addToHistory_loses_other_write_failures_silently
              Bounded.Storage Denied.setItem stringify Bounded.sample_world
              {| input_schema := lit "[DIAGRAM TITLE]";
                 input_imageUrl := None |} (lit "7") 0%Z
              Denied.SecurityError eq_refl eq_refl) as (Hcall & Hwarn & _).
  split; [reflexivity|].
  unfold completion, after. rewrite Hcall. cbn [fst snd mem].
  split; [reflexivity|exact Hwarn].
Defined.

Lemma reference_images_witness :
  let w : World Bounded.Storage :=
    {| mem := Object_assign initialState
                [f_referenceImages [lit "a"; lit "b"; lit "c"]];
       disk := Bounded.full |} in
  (1 < List.length (referenceImages (mem w)))%nat
  /\ List.length
       (referenceImages
          (mem (after (removeReferenceImage setItem stringify 1) w)))
     = 2%nat.
Proof.
  cbv zeta. split; [vm_compute; lia|].
  exact (proj2 (proj2 (proj2 (proj2
           (reference_images_add_and_remove Bounded.Storage setItem stringify
              {| mem := Object_assign initialState
                          [f_referenceImages [lit "a"; lit "b"; lit "c"]];
                 disk := Bounded.full |} (lit "d") 1))))
           ltac:(vm_compute; lia)).
Defined.

End StoreMoreOnInstances.

(** ** The architect step *)

Section ArchitectFiles.

Import Architect.

Variable Failure : Type.
Variable convertPdfToImages : File -> Failure + list jsstring.
Variable readAsDataURL : File -> jsstring.

Local Abbreviation processFiles :=
  (processFiles convertPdfToImages readAsDataURL).
Local Abbreviation handleFileUpload :=
  (handleFileUpload convertPdfToImages readAsDataURL).
Local Abbreviation images_of := (images_of convertPdfToImages readAsDataURL).

(** The loop changes the notifications of the component only. *)
Lemma processFiles_component (language : Store.Language) (files : list File)
    (newFiles : list UploadedFile) (newImages : list jsstring)
    (c : Component) :
  let c' := snd (processFiles language files newFiles newImages c) in
  isGenerating c' = isGenerating c
  /\ isProcessingFiles c' = isProcessingFiles c
  /\ uploadedFiles c' = uploadedFiles c
  /\ processedImages c' = processedImages c
  /\ exists more, toasts c' = toasts c ++ more.
Proof.
  cbv zeta. revert newFiles newImages c.
  induction files as [|file files IH]; intros newFiles newImages c.
  - repeat split. exists []. now rewrite app_nil_r.
  - cbn [Architect.processFiles].
    destruct (str_eqb (file_type file) (lit "application/pdf")).
    + destruct (convertPdfToImages file) as [e|pdfImages].
      * repeat split. eexists. reflexivity.
      * match goal with
        | |- context [Architect.processFiles _ _ _ _ ?nf ?ni ?c0] =>
            destruct (IH nf ni c0) as (H1 & H2 & H3 & H4 & more & H5)
        end.
        rewrite H1, H2, H3, H4, H5. repeat split.
        cbn [toasts toast]. rewrite <- !app_assoc. eexists. reflexivity.
    + destruct (starts_with (lit "image/") (file_type file)); apply IH.
Qed.

Lemma processFiles_succeeds (language : Store.Language) (files : list File)
    (newFiles : list UploadedFile) (newImages : list jsstring)
    (c : Component) :
  (forall f, In f files -> is_pdf f = true ->
             exists pages, convertPdfToImages f = inr pages) ->
  exists added,
    fst (processFiles language files newFiles newImages c)
      = inr (newFiles ++ added, newImages ++ flat_map images_of files)
    /\ map name added
       = map file_name (filter (fun f => is_pdf f || is_image f) files).
Proof.
  revert newFiles newImages c.
  induction files as [|file files IH]; intros newFiles newImages c Hok.
  - exists []. cbn. now rewrite !app_nil_r.
  - assert (Hrest : forall f, In f files -> is_pdf f = true ->
                              exists pages, convertPdfToImages f = inr pages)
      by (intros f Hf; apply Hok; now right).
    cbn [Architect.processFiles flat_map filter].
    unfold Architect.images_of at 1. unfold is_pdf at 1 2, is_image at 1 2.
    destruct (str_eqb (file_type file) (lit "application/pdf")) eqn:Epdf.
    + destruct (Hok file (or_introl eq_refl) Epdf) as (pages & Hpages).
      rewrite Hpages.
      match goal with
      | |- context [Architect.processFiles _ _ _ _ ?nf ?ni ?c0] =>
          destruct (IH nf ni c0 Hrest) as (added & Hfst & Hnames)
      end.
      rewrite Hfst. eexists (_ :: added). split.
      * now rewrite <- !app_assoc.
      * cbn [orb map name]. now rewrite Hnames.
    + destruct (starts_with (lit "image/") (file_type file)) eqn:Eimg.
      * match goal with
        | |- context [Architect.processFiles _ _ _ _ ?nf ?ni ?c0] =>
            destruct (IH nf ni c0 Hrest) as (added & Hfst & Hnames)
        end.
        rewrite Hfst. eexists (_ :: added). split.
        -- now rewrite <- !app_assoc.
        -- cbn [orb map name]. now rewrite Hnames.
      * cbn [orb app]. apply IH, Hrest.
Qed.

Lemma processFiles_fails (language : Store.Language) (files : list File)
    (newFiles : list UploadedFile) (newImages : list jsstring)
    (c : Component) (file : File) (e : Failure) :
  In file files -> is_pdf file = true -> convertPdfToImages file = inl e ->
  exists e', fst (processFiles language files newFiles newImages c) = inl e'.
Proof.
  revert newFiles newImages c.
  induction files as [|f files IH]; intros newFiles newImages c Hin Hpdf He;
    [contradiction|].
  cbn [Architect.processFiles].
  destruct Hin as [->|Hin].
  - unfold is_pdf in Hpdf. rewrite Hpdf, He. now exists e.
  - destruct (str_eqb (file_type f) (lit "application/pdf")).
    + destruct (convertPdfToImages f) as [e1|pages]; [now exists e1|].
      now apply IH.
    + destruct (starts_with (lit "image/") (file_type f)); now apply IH.
Qed.

(** X15. When every PDF of an upload converts, [handleFileUpload] adds to
    the images, after those already there, the images of the files in the
    order of the files (the pages of a PDF in page order, an image file
    as one image, any other file nothing), and adds one entry per PDF or
    image file to the uploaded files; the processing flag is off at the
    end. *)
Theorem upload_appends_the_images_in_file_order :
  forall (language : Store.Language) (files : list File) (c : Component),
    (forall f, In f files -> is_pdf f = true ->
               exists pages, convertPdfToImages f = inr pages) ->
    let c' := handleFileUpload language (Some files) c in
    processedImages c' = processedImages c ++ flat_map images_of files
    /\ map name (uploadedFiles c')
       = map name (uploadedFiles c)
           ++ map file_name (filter (fun f => is_pdf f || is_image f) files)
    /\ isProcessingFiles c' = false
    /\ isGenerating c' = isGenerating c.
Proof.
  intros language files c Hok. cbv zeta. unfold Architect.handleFileUpload.
  destruct (processFiles_succeeds language files [] []
              (setIsProcessingFiles true c) Hok) as (added & Hfst & Hnames).
  pose proof (processFiles_component language files [] []
                (setIsProcessingFiles true c)) as Hc.
  cbv zeta in Hc.
  destruct (processFiles language files [] [] (setIsProcessingFiles true c))
    as [r c2].
  cbn [fst snd] in Hfst, Hc. subst r.
  destruct Hc as (H1 & _ & H3 & H4 & _).
  cbn [app setIsProcessingFiles setProcessedImages setUploadedFiles
       processedImages uploadedFiles isProcessingFiles isGenerating].
  rewrite H1, H3, H4. cbn [setIsProcessingFiles processedImages
    uploadedFiles isGenerating].
  repeat split. now rewrite map_app, Hnames.
Qed.

(** X16. When a PDF of an upload fails to convert, [handleFileUpload]
    adds nothing: the uploaded files and the images are as before, also
    for the files that came before the failing one; an error is notified
    last and the processing flag is off. *)
Theorem failed_upload_adds_nothing :
  forall (language : Store.Language) (files : list File) (c : Component)
         (file : File) (e : Failure),
    In file files -> is_pdf file = true ->
    convertPdfToImages file = inl e ->
    let c' := handleFileUpload language (Some files) c in
    uploadedFiles c' = uploadedFiles c
    /\ processedImages c' = processedImages c
    /\ isProcessingFiles c' = false
    /\ exists earlier,
         toasts c'
         = toasts c ++ earlier
             ++ [toast_error
                   (match language with
                    | Store.zh => ZH_PROCESSING_FAILED
                    | Store.en => lit "Failed to process files"
                    end)].
Proof.
  intros language files c file e Hin Hpdf He. cbv zeta.
  unfold Architect.handleFileUpload.
  destruct (processFiles_fails language files [] []
              (setIsProcessingFiles true c) file e Hin Hpdf He) as (e' & Hfst).
  pose proof (processFiles_component language files [] []
                (setIsProcessingFiles true c)) as Hc.
  cbv zeta in Hc.
  destruct (processFiles language files [] [] (setIsProcessingFiles true c))
    as [r c2].
  cbn [fst snd] in Hfst, Hc. subst r.
  destruct Hc as (_ & _ & H3 & H4 & more & H5).
  cbn [setIsProcessingFiles toast processedImages uploadedFiles
       isProcessingFiles toasts].
  rewrite H3, H4, H5. cbn [setIsProcessingFiles processedImages
    uploadedFiles toasts].
  repeat split. exists more. now rewrite <- app_assoc.
Qed.

(** X17. [removeFile] takes the file at the index out of the uploaded
    files, but it empties the images only when no file is left: while
    another file remains, the images are all kept, those of the removed
    file too. *)
Theorem removeFile_keeps_the_images_while_a_file_remains :
  forall (index : nat) (c : Component),
    let c' := removeFile index c in
    uploadedFiles c' = Store.remove_index index (uploadedFiles c)
    /\ ((2 <= List.length (uploadedFiles c))%nat ->
        processedImages c' = processedImages c)
    /\ ((List.length (uploadedFiles c) <= 1)%nat -> index = O ->
        uploadedFiles c' = [] /\ processedImages c' = []).
Proof.
  intros index c. cbv zeta. unfold removeFile.
  rewrite <- (remove_index_filter index (uploadedFiles c)).
  assert (Hfiles : forall b : bool,
            uploadedFiles
              (if b
               then setProcessedImages (fun _ => [])
                      (setUploadedFiles
                         (fun prev =>
                            filter_indexed (fun i => negb (Nat.eqb i index))
                              prev) c)
               else setUploadedFiles
                      (fun prev =>
                         filter_indexed (fun i => negb (Nat.eqb i index))
                           prev) c)
            = Store.remove_index index (uploadedFiles c)).
  { intros [|]; cbn [setProcessedImages setUploadedFiles uploadedFiles];
      symmetry; apply remove_index_filter. }
  split; [apply Hfiles|split].
  - intros Hlen.
    destruct (Nat.eqb_spec
                (List.length (Store.remove_index index (uploadedFiles c))) 0)
      as [Hz|_]; [|reflexivity].
    destruct (Nat.lt_ge_cases index (List.length (uploadedFiles c)))
      as [Hlt|Hge].
    + rewrite remove_index_length in Hz by exact Hlt. lia.
    + rewrite remove_index_beyond in Hz by exact Hge. lia.
  - intros Hlen ->. rewrite Hfiles.
    destruct (uploadedFiles c) as [|f [|g l]]; cbn in Hlen; try lia;
      split; reflexivity.
Qed.

End ArchitectFiles.

Section ArchitectGenerate.

Import Architect.

Variable t : Store.Language -> jsstring -> jsstring.
Variable Storage : Type.
Variable localStorage_setItem :
  jsstring -> jsstring -> Storage -> Store.Exn + Storage.
Variable JSON_stringify : Store.StorageValue -> jsstring.
Variable RemoteError : Type.
Variable remote_instanceof_Error : RemoteError -> bool.
Variable remote_message : RemoteError -> jsstring.
Variable exn_message : Store.Exn -> jsstring.

Local Abbreviation World := (Store.World Storage).
Local Abbreviation Remote :=
  (jsstring -> jsstring -> Api.ChatRequest -> RemoteError + Api.ChatCompletion).
Local Abbreviation handleGenerate create :=
  (handleGenerate t localStorage_setItem JSON_stringify create
     remote_instanceof_Error remote_message exn_message).
Local Abbreviation generate create :=
  (generate localStorage_setItem JSON_stringify create).
Local Abbreviation errorMessage :=
  (errorMessage remote_instanceof_Error remote_message exn_message).
Local Abbreviation setGeneratedSchema :=
  (Store.setGeneratedSchema localStorage_setItem JSON_stringify).
Local Abbreviation setCurrentStep :=
  (Store.setCurrentStep localStorage_setItem JSON_stringify).

(** The request of [handleGenerate] for a component and a world. *)
Local Abbreviation request c w :=
  (Api.generateSchema_request
     (contentToSend (Store.language (Store.mem w))
        (Store.paperContent (Store.mem w)))
     (Store.logicConfig (Store.mem w))
     (if Nat.ltb 0 (List.length (processedImages c))
      then Some (processedImages c) else None)).

(** The answer of the remote capability to that request. *)
Local Abbreviation answer create c w :=
  (create (Api.apiKey (Store.logicConfig (Store.mem w)))
     (Api.baseUrl (Store.logicConfig (Store.mem w))) (request c w)).

Lemma handleGenerate_ready (create : Remote) (c : Component) (w : World) :
  ready c w ->
  handleGenerate create c w =
    let language := Store.language (Store.mem w) in
    let '(thrown, c2, w2) :=
      generate create language (Store.paperContent (Store.mem w))
        (Store.logicConfig (Store.mem w)) (setIsGenerating true c) w in
    (setIsGenerating false
       match thrown with
       | Some error =>
           toast
             (toast_error
                (t language (lit "generationFailed") ++ lit ": "
                   ++ errorMessage error)) c2
       | None => c2
       end,
     w2).
Proof.
  intros [Hkey Hinput]. unfold Architect.handleGenerate. rewrite Hkey.
  cbn [negb].
  assert (Hguard : negb (truthy (trim (Store.paperContent (Store.mem w))))
                   && Nat.eqb (List.length (processedImages c)) 0 = false).
  { destruct Hinput as [-> | Himgs]; [reflexivity|].
    destruct (processedImages c); [contradiction|]. apply andb_false_r. }
  now rewrite Hguard.
Qed.

Lemma contentToSend_truthy (language : Store.Language) (paperContent : jsstring) :
  truthy (contentToSend language paperContent) = true.
Proof.
  unfold contentToSend.
  destruct (truthy (trim paperContent)) eqn:E; [exact E|].
  now destruct language.
Qed.

(** X18. Without an API key, [handleGenerate] only notifies the
    missing key; with a key but without text (after trimming) and without
    images, it only notifies that there is no input. In both cases the
    notification is fixed by the language alone, the component is
    otherwise as it was, the store and the storage are as they were, and
    the result is the same for every remote capability. *)
Theorem handleGenerate_refuses_without_key_or_input :
  forall (c : Component) (w : World),
    let language := Store.language (Store.mem w) in
    (truthy (Api.apiKey (Store.logicConfig (Store.mem w))) = false ->
     forall create : Remote,
       handleGenerate create c w
       = (toast (toast_error (t language (lit "missingApiKey"))) c, w))
    /\ (truthy (Api.apiKey (Store.logicConfig (Store.mem w))) = true ->
        truthy (trim (Store.paperContent (Store.mem w))) = false ->
        processedImages c = [] ->
        forall create : Remote,
          handleGenerate create c w
          = (toast
               (toast_error
                  (match language with
                   | Store.zh => ZH_NO_INPUT
                   | Store.en => lit "Please enter text or upload files"
                   end)) c,
             w)).
Proof.
  intros c w. cbv zeta. split.
  - intros Hkey create. unfold Architect.handleGenerate. now rewrite Hkey.
  - intros Hkey Htext Himgs create. unfold Architect.handleGenerate.
    now rewrite Hkey, Htext, Himgs.
Qed.

(** X19. When [handleGenerate] does call, it sends one request: the
    images of the component as image parts, in their order, then one text
    part with the architect prompt of a content that is never empty (the
    trimmed paper content, or a fixed request when that is empty); and
    the result depends on the remote capability through its answer to
    that request alone. *)
Theorem handleGenerate_sends_the_images_and_a_prompt :
  forall (c : Component) (w : World),
    let content :=
      contentToSend (Store.language (Store.mem w))
        (Store.paperContent (Store.mem w)) in
    Api.user_content (request c w)
      = map Api.image_url (processedImages c)
          ++ [Api.text_part (Api.generateSchema_prompt content)]
    /\ truthy content = true
    /\ (truthy (trim (Store.paperContent (Store.mem w))) = true ->
        content = trim (Store.paperContent (Store.mem w)))
    /\ forall create1 create2 : Remote,
         answer create1 c w = answer create2 c w ->
         handleGenerate create1 c w = handleGenerate create2 c w.
Proof.
  intros c w. cbv zeta. split; [|split; [|split]].
  - rewrite generateSchema_content.
    destruct (processedImages c) as [|i l]; reflexivity.
  - apply contentToSend_truthy.
  - intros H. unfold contentToSend. now rewrite H.
  - intros create1 create2 Hsame. unfold Architect.handleGenerate.
    destruct (negb _); [reflexivity|].
    destruct (negb _ && _); [reflexivity|].
    unfold Architect.generate, Api.generateSchema.
    cbn [processedImages setIsGenerating].
    now rewrite Hsame.
Qed.

(** X20. When the remote call fails, [handleGenerate] leaves the store
    and the storage as they were; it notifies the failure with the
    error's message and puts the generating flag off. *)
Theorem handleGenerate_failure_leaves_the_store :
  forall (create : Remote) (c : Component) (w : World) (e : RemoteError),
    ready c w ->
    answer create c w = inl e ->
    handleGenerate create c w
    = (setIsGenerating false
         (toast
            (toast_error
               (t (Store.language (Store.mem w)) (lit "generationFailed")
                  ++ lit ": "
                  ++ (if remote_instanceof_Error e then remote_message e
                      else lit "Unknown error")))
            (setIsGenerating true c)),
       w).
Proof.
  intros create c w e Hready He.
  rewrite (handleGenerate_ready create c w Hready). cbv zeta.
  unfold Architect.generate, Api.generateSchema.
  cbn [processedImages setIsGenerating]. now rewrite He.
Qed.

(** X21. When the remote call answers, the schema of the answer (the
    empty string when the answer has none) is in [generatedSchema] in
    memory and the generating flag is off. If the write of the schema
    goes through, the step in memory is 2. If that write throws, the step
    is left as it was and the generation is notified as failed, though
    the schema is in memory. *)
Theorem handleGenerate_success_and_full_storage :
  forall (create : Remote) (c : Component) (w : World)
         (response : Api.ChatCompletion),
    ready c w ->
    answer create c w = inr response ->
    let schema := Api.or_empty (Api.first_content response) in
    let c' := fst (handleGenerate create c w) in
    let w' := snd (handleGenerate create c w) in
    Store.generatedSchema (Store.mem w') = schema
    /\ isGenerating c' = false
    /\ processedImages c' = processedImages c
    /\ (Store.completion (setGeneratedSchema schema) w = Store.Normal tt ->
        Store.currentStep (Store.mem w') = Store.Step2)
    /\ (forall e,
          Store.completion (setGeneratedSchema schema) w = Store.Throw e ->
          Store.currentStep (Store.mem w') = Store.currentStep (Store.mem w)
          /\ toasts c'
             = toasts c
                 ++ [toast_error
                       (t (Store.language (Store.mem w))
                          (lit "generationFailed")
                          ++ lit ": "
                          ++ errorMessage (thrown_by_store RemoteError e))]).
Proof.
  intros create c w response Hready Hr. cbv zeta.
  rewrite (handleGenerate_ready create c w Hready). cbv zeta.
  unfold Architect.generate, Api.generateSchema.
  cbn [processedImages setIsGenerating]. rewrite Hr. cbn [Api.schema].
  set (schema := Api.or_empty (Api.first_content response)).
  unfold Store.completion.
  pose proof (set_mem Storage localStorage_setItem JSON_stringify
                [Store.f_generatedSchema schema] w) as Hm1.
  unfold Store.after in Hm1. fold (setGeneratedSchema schema) in Hm1.
  change (Store.set localStorage_setItem JSON_stringify
            [Store.f_generatedSchema schema])
    with (setGeneratedSchema schema) in Hm1.
  destruct (setGeneratedSchema schema w) as [[[]|e1] w1] eqn:E1;
    cbn [snd fst] in Hm1 |- *.
  - pose proof (set_mem Storage localStorage_setItem JSON_stringify
                  [Store.f_currentStep Store.Step2] w1) as Hm2.
    unfold Store.after in Hm2.
    change (Store.set localStorage_setItem JSON_stringify
              [Store.f_currentStep Store.Step2])
      with (setCurrentStep Store.Step2) in Hm2.
    destruct (setCurrentStep Store.Step2 w1) as [[[]|e2] w2] eqn:E2;
      cbn [snd fst] in Hm2 |- *; rewrite Hm2, Hm1;
      (repeat split; try discriminate;
       destruct (Store.mem w); reflexivity).
  - rewrite Hm1. repeat split; try discriminate;
      try (destruct (Store.mem w); reflexivity).
    all: match goal with H : Store.Throw _ = Store.Throw _ |- _ =>
           injection H as <- end.
    all: try (destruct (Store.mem w); reflexivity).
Qed.

End ArchitectGenerate.

Section ArchitectOnInstances.

Import Architect.

Local Abbreviation setItem := (Store.Bounded.setItem Store.Bounded.quota).
Local Abbreviation stringify := Store.Bounded.stringify.
Local Abbreviation handleGenerate create :=
  (Architect.handleGenerate Sample.t setItem stringify create
     (fun _ : unit => true) Sample.message_of_unit Sample.message_of_exn).

Lemma upload_witness :
  let files := [Sample.paper_pdf; Sample.notes_txt; Sample.figure_png] in
  (forall f, In f files -> is_pdf f = true ->
             exists pages, Sample.convert f = inr pages)
  /\ processedImages
       (handleFileUpload Sample.convert Sample.read Store.en (Some files)
          Sample.idle)
     = [lit "data:image/png;base64,P1"; lit "data:image/png;base64,P2";
        lit "data:image/png;base64,IMG"].
Proof.
  cbv zeta.
  assert (Hok : forall f,
             In f [Sample.paper_pdf; Sample.notes_txt; Sample.figure_png] ->
             is_pdf f = true -> exists pages, Sample.convert f = inr pages).
  { intros f [<-|[<-|[<-|[]]]] Hpdf; try discriminate Hpdf.
    eexists; reflexivity. }
  split; [exact Hok|].
  rewrite (proj1 (upload_appends_the_images_in_file_order
                    unit Sample.convert Sample.read Store.en _ Sample.idle
                    Hok)).
  reflexivity.
Defined.

Lemma failed_upload_witness :
  let files := [Sample.figure_png; Sample.broken_pdf] in
  In Sample.broken_pdf files
  /\ is_pdf Sample.broken_pdf = true
  /\ Sample.convert Sample.broken_pdf = inl tt
  /\ processedImages
       (handleFileUpload Sample.convert Sample.read Store.en (Some files)
          Sample.idle) = [].
Proof.
  cbv zeta.
  assert (Hin : In Sample.broken_pdf [Sample.figure_png; Sample.broken_pdf])
    by (right; left; reflexivity).
  split; [exact Hin|split; [reflexivity|split; [reflexivity|]]].
  exact (proj1 (proj2 (failed_upload_adds_nothing
                         unit Sample.convert Sample.read Store.en _
                         Sample.idle Sample.broken_pdf tt Hin
                         eq_refl eq_refl))).
Defined.

Lemma removeFile_witness :
  let c :=
    handleFileUpload Sample.convert Sample.read Store.en
      (Some [Sample.paper_pdf; Sample.figure_png]) Sample.idle in
  (2 <= List.length (uploadedFiles c))%nat
  /\ map name (uploadedFiles (removeFile 0 c)) = [lit "figure.png"]
  /\ processedImages (removeFile 0 c)
     = [lit "data:image/png;base64,P1"; lit "data:image/png;base64,P2";
        lit "data:image/png;base64,IMG"].
Proof.
  cbv zeta.
  assert (Hlen : (2 <= List.length
                    (uploadedFiles
                       (handleFileUpload Sample.convert Sample.read Store.en
                          (Some [Sample.paper_pdf; Sample.figure_png])
                          Sample.idle)))%nat)
    by (vm_compute; lia).
  split; [exact Hlen|].
  destruct (removeFile_keeps_the_images_while_a_file_remains 0
              (handleFileUpload Sample.convert Sample.read Store.en
                 (Some [Sample.paper_pdf; Sample.figure_png]) Sample.idle))
    as (Hfiles & Himgs & _).
  rewrite Hfiles, (Himgs Hlen). split; reflexivity.
Defined.

Lemma refusal_witness :
  truthy (Api.apiKey (Store.logicConfig (Store.mem Store.Bounded.sample_world)))
    = false
  /\ handleGenerate (Sample.answering None) Sample.idle
       Store.Bounded.sample_world
     = (toast (toast_error (lit "missingApiKey")) Sample.idle,
        Store.Bounded.sample_world).
Proof.
  split; [reflexivity|].
  exact (proj1 (handleGenerate_refuses_without_key_or_input
                  Sample.t Store.Bounded.Storage setItem stringify unit
                  (fun _ => true) Sample.message_of_unit Sample.message_of_exn
                  Sample.idle Store.Bounded.sample_world)
           eq_refl (Sample.answering None)).
Defined.

Lemma one_request_witness :
  let reply := Some (lit "---BEGIN PROMPT---") in
  Sample.answering reply (lit "sk-1") (lit "https://api.deepseek.com")
    (Api.generateSchema_request
       (contentToSend Store.zh (lit "  An abstract. "))
       (Store.logicConfig (Store.mem Sample.keyed_world)) None)
  = Sample.answering_deepseek reply (lit "sk-1")
      (lit "https://api.deepseek.com")
      (Api.generateSchema_request
         (contentToSend Store.zh (lit "  An abstract. "))
         (Store.logicConfig (Store.mem Sample.keyed_world)) None)
  /\ handleGenerate (Sample.answering reply) Sample.idle Sample.keyed_world
     = handleGenerate (Sample.answering_deepseek reply) Sample.idle
         Sample.keyed_world.
Proof.
  cbv zeta. split; [reflexivity|].
  apply (proj2 (proj2 (proj2
           (handleGenerate_sends_the_images_and_a_prompt
              Sample.t Store.Bounded.Storage setItem stringify unit
              (fun _ => true) Sample.message_of_unit Sample.message_of_exn
              Sample.idle Sample.keyed_world)))).
  reflexivity.
Defined.

Lemma remote_failure_witness :
  ready Sample.idle Sample.keyed_world
  /\ Sample.failing (lit "sk-1") (lit "https://api.deepseek.com")
       (Api.generateSchema_request
          (contentToSend Store.zh (lit "  An abstract. "))
          (Store.logicConfig (Store.mem Sample.keyed_world)) None)
     = inl tt
  /\ snd (handleGenerate Sample.failing Sample.idle Sample.keyed_world)
     = Sample.keyed_world.
Proof.
  assert (Hready : ready Sample.idle Sample.keyed_world)
    by (split; [reflexivity|left; reflexivity]).
  split; [exact Hready|split; [reflexivity|]].
  now rewrite (handleGenerate_failure_leaves_the_store
                 Sample.t Store.Bounded.Storage setItem stringify unit
                 (fun _ => true) Sample.message_of_unit Sample.message_of_exn
                 Sample.failing Sample.idle Sample.keyed_world tt Hready
                 eq_refl).
Defined.

Lemma full_storage_generation_witness :
  let reply := Some (lit "---BEGIN PROMPT---") in
  let w' := snd (handleGenerate (Sample.answering reply) Sample.idle
                   Sample.keyed_world) in
  ready Sample.idle Sample.keyed_world
  /\ Store.completion
       (Store.setGeneratedSchema setItem stringify (lit "---BEGIN PROMPT---"))
       Sample.keyed_world = Store.Throw Store.QuotaExceededError
  /\ Store.generatedSchema (Store.mem w') = lit "---BEGIN PROMPT---"
  /\ Store.currentStep (Store.mem w') = Store.Step1.
Proof.
  cbv zeta.
  assert (Hready : ready Sample.idle Sample.keyed_world)
    by (split; [reflexivity|left; reflexivity]).
  assert (Hthrow : Store.completion
                     (Store.setGeneratedSchema setItem stringify
                        (lit "---BEGIN PROMPT---"))
                     Sample.keyed_world = Store.Throw Store.QuotaExceededError)
    by (vm_compute; reflexivity).
  split; [exact Hready|split; [exact Hthrow|]].
  destruct (handleGenerate_success_and_full_storage
              Sample.t Store.Bounded.Storage setItem stringify unit
              (fun _ => true) Sample.message_of_unit Sample.message_of_exn
              (Sample.answering (Some (lit "---BEGIN PROMPT---")))
              Sample.idle Sample.keyed_world
              (Sample.completion_of (Some (lit "---BEGIN PROMPT---")))
              Hready eq_refl) as (Hschema & _ & _ & _ & Hfull).
  split; [exact Hschema|].
  exact (proj1 (Hfull _ Hthrow)).
Defined.

End ArchitectOnInstances.
